(** * chart-sentry: the diff result domain, the dyff output cleaner and the
      report formatters, embedded from the Go sources.

    Go strings are byte strings: they are modelled as [string] (a list of
    8-bit [ascii]).  A Go [map] used as a dictionary is a [gmap], a map used
    as a set is a [gset], slices are lists.  An index expression that would
    panic in Go makes the embedded function return [None]. *)

From Stdlib Require Import Ascii String DecimalString Permutation Lia.
From stdpp Require Import base option list strings gmap.

(** ** The functions of Go's [strings] package that the sources call *)
Module GoStrings.

(** ["\n"], the separator of [strings.Split(output, "\n")]. *)
Definition LF : ascii := "010"%char.
Definition nl : string := String LF "".

(** [strings.HasPrefix(s, prefix)]. *)
Fixpoint HasPrefix (s prefix : string) {struct prefix} : bool :=
  match prefix with
  | "" => true
  | String p prefix' =>
      match s with
      | "" => false
      | String c s' => if Ascii.eqb c p then HasPrefix s' prefix' else false
      end
  end.

(** [strings.Contains(s, substr)]: [substr] starts at some offset of [s]. *)
Fixpoint Contains (s substr : string) : bool :=
  HasPrefix s substr ||
  match s with
  | "" => false
  | String _ s' => Contains s' substr
  end.

(** Puts byte [c] in front of the first piece of a split. *)
Definition push_front (c : ascii) (pieces : list string) : list string :=
  match pieces with
  | [] => [String c ""]
  | piece :: rest => String c piece :: rest
  end.

(** [strings.Split(s, sep)] for a one-byte separator: one piece more than
    there are separators, so [Split "" sep = [""]]. *)
Fixpoint Split (s : string) (sep : ascii) : list string :=
  match s with
  | "" => [""]
  | String c s' =>
      if Ascii.eqb c sep then "" :: Split s' sep
      else push_front c (Split s' sep)
  end.

(** [strings.SplitN(s, sep, n)] for a one-byte separator and [n >= 0]: at
    most [n] pieces, the last one being the unsplit remainder. *)
Fixpoint SplitN (s : string) (sep : ascii) (n : nat) {struct s} : list string :=
  match n with
  | 0 => []
  | 1 => [s]
  | S (S _ as n') =>
      match s with
      | "" => [""]
      | String c s' =>
          if Ascii.eqb c sep then "" :: SplitN s' sep n'
          else push_front c (SplitN s' sep n)
      end
  end.

(** [strings.Join(elems, sep)]. *)
Fixpoint Join (elems : list string) (sep : string) : string :=
  match elems with
  | [] => ""
  | e :: rest =>
      match rest with
      | [] => e
      | _ :: _ => e +:+ sep +:+ Join rest sep
      end
  end.

(** The six ASCII bytes of Go's [asciiSpace] table. *)
Definition asciiSpace (c : ascii) : bool :=
  Ascii.eqb c "009" || Ascii.eqb c "010" || Ascii.eqb c "011" ||
  Ascii.eqb c "012" || Ascii.eqb c "013" || Ascii.eqb c "032".

(** UTF-8 encodings of the two-byte runes of [unicode.IsSpace]:
    U+0085 and U+00A0. *)
Definition isSpace2 (b1 b2 : ascii) : bool :=
  Ascii.eqb b1 "194" && (Ascii.eqb b2 "133" || Ascii.eqb b2 "160").

(** UTF-8 encodings of the three-byte runes of [unicode.IsSpace]: U+1680,
    U+2000..U+200A, U+2028, U+2029, U+202F, U+205F and U+3000. *)
Definition isSpace3 (b1 b2 b3 : ascii) : bool :=
  let n3 := nat_of_ascii b3 in
  (Ascii.eqb b1 "225" && Ascii.eqb b2 "154" && Ascii.eqb b3 "128") ||
  (Ascii.eqb b1 "226" && Ascii.eqb b2 "128" &&
     ((Nat.leb 128 n3 && Nat.leb n3 138) ||
      Ascii.eqb b3 "168" || Ascii.eqb b3 "169" || Ascii.eqb b3 "175")) ||
  (Ascii.eqb b1 "226" && Ascii.eqb b2 "129" && Ascii.eqb b3 "159") ||
  (Ascii.eqb b1 "227" && Ascii.eqb b2 "128" && Ascii.eqb b3 "128").

(** [strings.TrimLeftFunc(s, unicode.IsSpace)]: drops leading white-space
    runes.  A byte sequence that is not the encoding of a white-space rune
    (also an invalid one, decoded as U+FFFD) stops the scan. *)
Fixpoint TrimLeftSpace (s : string) : string :=
  match s with
  | "" => ""
  | String b1 s1 =>
      if asciiSpace b1 then TrimLeftSpace s1
      else
        match s1 with
        | "" => s
        | String b2 s2 =>
            if isSpace2 b1 b2 then TrimLeftSpace s2
            else
              match s2 with
              | "" => s
              | String b3 s3 =>
                  if isSpace3 b1 b2 b3 then TrimLeftSpace s3 else s
              end
        end
  end.

(** The same scan on the reversed string: [b1] is the last byte. *)
Fixpoint TrimLeftSpace_rev (s : string) : string :=
  match s with
  | "" => ""
  | String b1 s1 =>
      if asciiSpace b1 then TrimLeftSpace_rev s1
      else
        match s1 with
        | "" => s
        | String b2 s2 =>
            if isSpace2 b2 b1 then TrimLeftSpace_rev s2
            else
              match s2 with
              | "" => s
              | String b3 s3 =>
                  if isSpace3 b3 b2 b1 then TrimLeftSpace_rev s3 else s
              end
        end
  end.

(** [strings.TrimRightFunc(s, unicode.IsSpace)]. *)
Definition TrimRightSpace (s : string) : string :=
  String.rev (TrimLeftSpace_rev (String.rev s)).

(** [strings.TrimSpace(s)]: leading and trailing white space removed. *)
Definition TrimSpace (s : string) : string :=
  TrimRightSpace (TrimLeftSpace s).

(** The [%d] verb of [fmt] on a non-negative [int]. *)
Definition Itoa (n : nat) : string :=
  NilZero.string_of_uint (Nat.to_uint n).

End GoStrings.

(** ** package domain *)
Module domain.
Import GoStrings.

(** [type Status int] with its three [iota] constants. *)
Inductive Status : Set :=
| StatusSuccess
| StatusChanges
| StatusError.

#[global] Instance Status_eq_dec : EqDecision Status.
Proof. solve_decision. Defined.

(** [type DiffResult struct]; the field [Status] is [Status'] here, the
    type keeps the name. *)
Record DiffResult : Set := mkDiffResult {
  ChartName : string;
  Environment : string;
  BaseRef : string;
  HeadRef : string;
  Status' : Status;
  HasChanges : bool;
  UnifiedDiff : string;
  SemanticDiff : string;
  Summary : string
}.

(** [func (r DiffResult) PreferredDiff() string]. *)
Definition PreferredDiff (r : DiffResult) : string :=
  if bool_decide (SemanticDiff r ≠ "") then SemanticDiff r
  else UnifiedDiff r.

(** One iteration of the loop of [CountByStatus]. *)
Definition CountByStatus_step (acc : nat * nat * nat) (r : DiffResult)
  : nat * nat * nat :=
  let '(success, changes, errors) := acc in
  match Status' r with
  | StatusSuccess => (S success, changes, errors)
  | StatusChanges => (success, S changes, errors)
  | StatusError => (success, changes, S errors)
  end.

(** [func CountByStatus(results []DiffResult) (success, changes, errors int)]. *)
Definition CountByStatus (results : list DiffResult) : nat * nat * nat :=
  fold_left CountByStatus_step results (0, 0, 0).

(** [func FormatDiffLabel(chartName, envName, ref string) string]. *)
Definition FormatDiffLabel (chartName envName ref : string) : string :=
  chartName +:+ "/" +:+ envName +:+ " (" +:+ ref +:+ ")".

(** The state of the loop of [GroupByChart]: the map [order] and the slice
    [groups]. *)
Definition GroupState : Type := gmap string nat * list (list DiffResult).

(** One iteration of the loop of [GroupByChart].  [groups[idx]] panics when
    [idx] is out of range: the step then yields [None]. *)
Definition GroupByChart_step (st : GroupState) (r : DiffResult)
  : option GroupState :=
  let '(order, groups) := st in
  let '(idx, order, groups) :=
    match order !! ChartName r with
    | Some idx => (idx, order, groups)
    | None =>
        (length groups, <[ChartName r := length groups]> order, groups ++ [[]])
    end in
  g ← groups !! idx;
  Some (order, <[idx := g ++ [r]]> groups).

Fixpoint GroupByChart_loop (results : list DiffResult) (st : GroupState)
  : option GroupState :=
  match results with
  | [] => Some st
  | r :: rest => st' ← GroupByChart_step st r; GroupByChart_loop rest st'
  end.

(** [func GroupByChart(results []DiffResult) [][]DiffResult]. *)
Definition GroupByChart (results : list DiffResult)
  : option (list (list DiffResult)) :=
  snd <$> GroupByChart_loop results (∅, []).

(** Go [error] values as the repository builds them: [errors.New(msg)],
    a [*NotFoundError], and [fmt.Errorf(prefix + "%w", inner)]. *)
Inductive error : Set :=
| errors_New (msg : string)
| NotFoundError (Resource Ref : string)
| fmt_Errorf_w (prefix : string) (inner : error).

(** [func NewNotFoundError(resource, ref string) *NotFoundError]. *)
Definition NewNotFoundError (resource ref : string) : error :=
  NotFoundError resource ref.

(** The [Error()] method. *)
Fixpoint Error (e : error) : string :=
  match e with
  | errors_New msg => msg
  | NotFoundError resource ref => resource +:+ " not found at ref " +:+ ref
  | fmt_Errorf_w prefix inner => prefix +:+ Error inner
  end.

(** [errors.As(err, &notFoundErr)] with [notFoundErr *NotFoundError]: walks
    the [Unwrap] chain up to the first [*NotFoundError]. *)
Fixpoint errors_As_NotFoundError (e : error) : option (string * string) :=
  match e with
  | errors_New _ => None
  | NotFoundError resource ref => Some (resource, ref)
  | fmt_Errorf_w _ inner => errors_As_NotFoundError inner
  end.

(** [func IsNotFound(err error) bool] of errors.go; [None] is [nil]. *)
Definition IsNotFound (err : option error) : bool :=
  match err with
  | None => false
  | Some e =>
      match errors_As_NotFoundError e with
      | Some _ => true
      | None => false
      end
  end.

(** One iteration of the loop of [ExtractChartNames]: the name a path
    contributes, [None] where the loop says [continue]. *)
Definition chartNameOf (f : string) : option string :=
  if negb (HasPrefix f "charts/") then None
  else
    let parts := SplitN f "/" 3 in
    match parts !! 1 with
    | None => None (* len(parts) < 2 *)
    | Some name => if bool_decide (name = "") then None else Some name
    end.

Definition ExtractChartNames_step (st : gset string * list string)
    (f : string) : gset string * list string :=
  let '(seen, names) := st in
  match chartNameOf f with
  | None => (seen, names)
  | Some name =>
      if bool_decide (name ∈ seen) then (seen, names)
      else ({[name]} ∪ seen, names ++ [name])
  end.

(** [func ExtractChartNames(files []string) []string]. *)
Definition ExtractChartNames (files : list string) : list string :=
  snd (fold_left ExtractChartNames_step files (∅, [])).

End domain.

(** ** package domain, the revision of errors.go that keeps a message
       fallback (its [IsNotFound] and [containsAny]) *)
Module domain_fallback.
Import domain.

(** [func containsAny(s string, substrs []string) bool]: the hand-written
    scan [s[i:i+len(substr)] == substr] for [i] from [0] to
    [len(s)-len(substr)]. *)
Fixpoint containsAny (s : string) (substrs : list string) : bool :=
  match substrs with
  | [] => false
  | substr :: rest =>
      (Nat.leb (String.length substr) (String.length s) &&
       existsb
         (fun i => String.eqb (String.substring i (String.length substr) s) substr)
         (seq 0 (String.length s - String.length substr + 1)))
      || containsAny s rest
  end.

(** [func IsNotFound(err error) bool] with the fallback on the message. *)
Definition IsNotFound (err : option error) : bool :=
  match err with
  | None => false
  | Some e =>
      match errors_As_NotFoundError e with
      | Some _ => true
      | None =>
          let msg := Error e in
          containsAny msg ["not found"; "no such file or directory"; "404"]
      end
  end.

End domain_fallback.

(** ** package dyffdiff *)
Module dyffdiff.
Import GoStrings.

(** The banner test of [cleanDyffOutput]: the five lines of the dyff logo
    and the line that reports how many differences were returned. *)
Definition isBanner (line : string) : bool :=
  let trimmed := TrimSpace line in
  Contains line "_        __  __" ||
  Contains trimmed "_| |_   _ / _|/ _|" ||
  Contains trimmed "/ _' | | | | |_| |_" ||
  Contains trimmed "| (_| | |_| |  _|  _|" ||
  Contains trimmed "\__,_|\__, |_| |_|" ||
  Contains trimmed "|___/" ||
  (Contains line "returned" &&
     (Contains line "difference" || Contains line "differences")).

(** One iteration of the loop of [cleanDyffOutput] on the slice [cleaned]. *)
Definition cleanDyffOutput_step (tmpDir : string) (cleaned : list string)
    (line : string) : list string :=
  if Contains line tmpDir then cleaned
  else if isBanner line then cleaned
  else if bool_decide (length cleaned = 0) && bool_decide (TrimSpace line = "")
       then cleaned
  else cleaned ++ [line].

(** [func cleanDyffOutput(output, tmpDir string) string]. *)
Definition cleanDyffOutput (output tmpDir : string) : string :=
  let lines := Split output LF in
  let cleaned := fold_left (cleanDyffOutput_step tmpDir) lines [] in
  Join cleaned nl.

(** What the operating system answers to the calls of [ComputeDiff], in
    the order of the calls: [exec.LookPath], [os.MkdirTemp], the two
    [os.WriteFile] and the output streams of the dyff process.  [None]
    and [false] stand for an error. *)
Record DyffRun : Set := mkDyffRun {
  lookPath : option string;
  mkdirTemp : option string;
  writeBase : bool;
  writeHead : bool;
  stdout : string;
  stderr : string
}.

(** [func (a *Adapter) ComputeDiff(baseName, headName string, base, head []byte) string].
    The manifests only reach the temp files; what the function returns is
    a function of the labels and of the run. *)
Definition ComputeDiff (baseName headName : string) (run : DyffRun) : string :=
  match lookPath run with
  | None => ""
  | Some dyffPath =>
      match mkdirTemp run with
      | None => ""
      | Some tmpDir =>
          if negb (writeBase run) then ""
          else if negb (writeHead run) then ""
          else
            let output := stdout run in
            if bool_decide (output = "") && bool_decide (stderr run ≠ "")
            then ""
            else
              let output := cleanDyffOutput output tmpDir in
              if bool_decide (TrimSpace output = "") then ""
              else
                let sb := "" in
                let sb := sb +:+ "--- " +:+ baseName +:+ nl in
                let sb := sb +:+ "+++ " +:+ headName +:+ nl +:+ nl in
                let sb := sb +:+ output in
                TrimSpace sb
      end
  end.

End dyffdiff.

(** ** package app: the integration test's result construction and its two
       report formatters *)
Module app.
Import GoStrings domain.

(** Lines 72-91 of [TestIntegration_FullDiffFlow] (and the same lines of
    [TestIntegration_NewChart]): status and summary from the two diff
    outputs, then the [DiffResult] literal.  The chart name is the literal
    ["my-app"] in the first test and ["new-chart"] in the second. *)
Definition envResult (chart envName baseRef headRef : string)
    (semanticDiffOutput unifiedDiffOutput : string) : DiffResult :=
  let '(status, summary) :=
    if bool_decide (semanticDiffOutput ≠ "") || bool_decide (unifiedDiffOutput ≠ "")
    then (StatusChanges,
          "Changes detected in " +:+ chart +:+ " for environment " +:+ envName +:+ ".")
    else (StatusSuccess, "No changes detected.") in
  {| ChartName := chart;
     Environment := envName;
     BaseRef := baseRef;
     HeadRef := headRef;
     Status' := status;
     HasChanges := false;
     UnifiedDiff := unifiedDiffOutput;
     SemanticDiff := semanticDiffOutput;
     Summary := summary |}.

Definition TestIntegration_FullDiffFlow_result := envResult "my-app".
Definition TestIntegration_NewChart_result := envResult "new-chart".

(** Modelled from the spec: the render-failure branch of the environment
    runner (the app-layer service is not among the sources).  Section 4.2:
    the environment's result is Error with summary set to a description of
    the failure; section 3: both diff strings are empty. *)
Definition errorResult (chart envName baseRef headRef : string)
    (failure : error) : DiffResult :=
  {| ChartName := chart;
     Environment := envName;
     BaseRef := baseRef;
     HeadRef := headRef;
     Status' := StatusError;
     HasChanges := false;
     UnifiedDiff := "";
     SemanticDiff := "";
     Summary := Error failure |}.

(** What evaluating one environment ends in: the two diff outputs, or a
    failure of the renderer. *)
Inductive EnvOutcome : Set :=
| Diffed (semanticDiffOutput unifiedDiffOutput : string)
| RenderFailure (failure : error).

(** Modelled from the spec: one result per environment (section 4.2), from
    [envResult] when both manifests were diffed and from [errorResult]
    when rendering failed. *)
Definition runEnvironment (chart envName baseRef headRef : string)
    (outcome : EnvOutcome) : DiffResult :=
  match outcome with
  | Diffed sem uni => envResult chart envName baseRef headRef sem uni
  | RenderFailure failure => errorResult chart envName baseRef headRef failure
  end.

(** The first loop of [formatCheckRunMarkdown]: [changed] and [unchanged]. *)
Definition countChanged_step (acc : nat * nat) (r : DiffResult) : nat * nat :=
  let '(changed, unchanged) := acc in
  if bool_decide (Status' r = StatusChanges) then (S changed, unchanged)
  else (changed, S unchanged).

(** The display label of both formatters. *)
Definition statusLabel (r : DiffResult) : string :=
  let status := "No Changes" in
  let status := if bool_decide (Status' r = StatusChanges) then "Changed" else status in
  status.

(** The body of the second loop of [formatCheckRunMarkdown] at index [i]. *)
Definition checkRunSection (sb : string) (i : nat) (r : DiffResult) : string :=
  let sb := if Nat.ltb 0 i then sb +:+ nl else sb in
  let status := statusLabel r in
  let sb := sb +:+ "<details><summary>" +:+ Environment r +:+ " — " +:+ status
               +:+ "</summary>" +:+ nl +:+ nl in
  let sb :=
    if bool_decide (UnifiedDiff r = "") && bool_decide (SemanticDiff r = "")
    then sb +:+ "No changes detected." +:+ nl
    else
      let sb :=
        if bool_decide (SemanticDiff r ≠ "")
        then (sb +:+ "**Semantic Diff (dyff):**" +:+ nl)
               +:+ "```diff" +:+ nl +:+ SemanticDiff r +:+ nl +:+ "```" +:+ nl +:+ nl
        else sb in
      if bool_decide (UnifiedDiff r ≠ "")
      then (sb +:+ "**Unified Diff (line-based):**" +:+ nl)
             +:+ "```diff" +:+ nl +:+ UnifiedDiff r +:+ nl +:+ "```" +:+ nl
      else sb in
  sb +:+ nl +:+ "</details>" +:+ nl.

Fixpoint checkRunSections (sb : string) (i : nat) (results : list DiffResult)
  : string :=
  match results with
  | [] => sb
  | r :: rest => checkRunSections (checkRunSection sb i r) (S i) rest
  end.

(** [func formatCheckRunMarkdown(results []domain.DiffResult) string]. *)
Definition formatCheckRunMarkdown (results : list DiffResult) : string :=
  match results with
  | [] => ""
  | r0 :: _ =>
      let chartName := ChartName r0 in
      let '(changed, unchanged) := fold_left countChanged_step results (0, 0) in
      let conclusion := "success" in
      let conclusion := if Nat.ltb 0 changed then "neutral" else conclusion in
      let sb := "" in
      let sb := sb +:+ "# chart-sentry: " +:+ chartName +:+ nl +:+ nl in
      let sb := sb +:+ "**Status:** completed" +:+ nl in
      let sb := sb +:+ "**Conclusion:** " +:+ conclusion +:+ nl +:+ nl in
      let sb := sb +:+ "## Helm diff — " +:+ chartName +:+ nl +:+ nl in
      let sb := sb +:+ "### Summary" +:+ nl in
      let sb := sb +:+ "Analyzed " +:+ Itoa (length results) +:+ " environment(s): "
                   +:+ Itoa changed +:+ " changed, " +:+ Itoa unchanged
                   +:+ " unchanged" +:+ nl +:+ nl in
      let sb := sb +:+ "### Output" +:+ nl in
      checkRunSections sb 0 results
  end.

(** The body of the table loop of [formatPRComment]. *)
Definition prCommentRow (sb : string) (r : DiffResult) : string :=
  let status := statusLabel r in
  sb +:+ "| " +:+ ChartName r +:+ " | " +:+ Environment r +:+ " | " +:+ status
     +:+ " |" +:+ nl.

(** The body of the detail loop of [formatPRComment]. *)
Definition prCommentDetail (sb : string) (r : DiffResult) : string :=
  let sb := sb +:+ "### " +:+ ChartName r +:+ "/" +:+ Environment r +:+ nl in
  if bool_decide (Status' r ≠ StatusChanges)
  then sb +:+ "No changes detected." +:+ nl +:+ nl
  else
    let sb := sb +:+ "<details><summary>View diff</summary>" +:+ nl +:+ nl in
    let diffToShow := SemanticDiff r in
    let diffToShow :=
      if bool_decide (diffToShow = "") then UnifiedDiff r else diffToShow in
    let sb := sb +:+ "```diff" +:+ nl +:+ diffToShow +:+ nl +:+ "```" +:+ nl in
    sb +:+ "</details>" +:+ nl +:+ nl.

(** [func formatPRComment(results []domain.DiffResult) string]. *)
Definition formatPRComment (results : list DiffResult) : string :=
  let sb := "" in
  let sb := sb +:+ "## Chart-Sentry Diff Report" +:+ nl +:+ nl in
  let sb := sb +:+ "| Chart | Environment | Status |" +:+ nl in
  let sb := sb +:+ "|-------|-------------|--------|" +:+ nl in
  let sb := fold_left prCommentRow results sb in
  let sb := sb +:+ nl in
  let sb := fold_left prCommentDetail results sb in
  sb.

End app.

(** ** package sourcectrl *)
Module sourcectrl.
Import GoStrings domain.

(** [http.StatusOK]. *)
Definition StatusOK : nat := 200.

(** What the GitHub client, the network and the file system answer to the
    calls of [FetchChartFiles], in the order of the calls: the archive
    link, the request, the response with its status code, the temp
    directory, the extraction of the tarball into it, the names of its
    entries and [os.Stat] on the chart directory.  [inl] and [Some] carry
    the error of a call that fails. *)
Record FetchRun : Set := mkFetchRun {
  getArchiveLink : error + string;
  newRequest : option error;
  httpDo : error + nat;
  mkdirTemp : error + string;
  extractTarGz : option error;
  readDir : error + list string;
  statChartDir : option error
}.

(** What [FetchChartFiles] returns and does: the chart directory, the
    directory that the returned [cleanup] removes ([None] for a nil
    function), the error, and the directories it has removed itself by
    calling [cleanup()] before it returns. *)
Record Fetched : Set := mkFetched {
  chartDir : string;
  cleanup : option string;
  err : option error;
  removed : list string
}.

Section Fetch.
(** [filepath.Join] on two elements. *)
Variable filepath_Join : string → string → string.

(** [func (a *Adapter) FetchChartFiles(ctx, owner, repo, ref, chartPath)]. *)
Definition FetchChartFiles (ref chartPath : string) (run : FetchRun) : Fetched :=
  match getArchiveLink run with
  | inl e => mkFetched "" None (Some (fmt_Errorf_w "getting archive link: " e)) []
  | inr archiveURL =>
  match newRequest run with
  | Some e => mkFetched "" None (Some (fmt_Errorf_w "creating archive request: " e)) []
  | None =>
  match httpDo run with
  | inl e => mkFetched "" None (Some (fmt_Errorf_w "downloading archive: " e)) []
  | inr statusCode =>
  if negb (Nat.eqb statusCode StatusOK)
  then mkFetched "" None
         (Some (errors_New ("unexpected status downloading archive: "
                              +:+ Itoa statusCode))) []
  else
  match mkdirTemp run with
  | inl e => mkFetched "" None (Some (fmt_Errorf_w "creating temp dir: " e)) []
  | inr tmpDir =>
  match extractTarGz run with
  | Some e =>
      mkFetched "" None (Some (fmt_Errorf_w "extracting archive: " e)) [tmpDir]
  | None =>
  match readDir run with
  | inl e =>
      mkFetched "" None (Some (fmt_Errorf_w "reading temp dir: " e)) [tmpDir]
  | inr entries =>
  match entries with
  | [] => mkFetched "" None (Some (errors_New "empty archive")) [tmpDir]
  | entry0 :: _ =>
      let repoRoot := filepath_Join tmpDir entry0 in
      let chartDir := filepath_Join repoRoot chartPath in
      match statChartDir run with
      | Some _ =>
          mkFetched "" None (Some (NewNotFoundError chartPath ref)) [tmpDir]
      | None => mkFetched chartDir (Some tmpDir) None []
      end
  end end end end end end end.

End Fetch.
End sourcectrl.

(** ** package prfiles *)
Module prfiles.
Import domain.

(** One answer of [client.PullRequests.ListFiles]: the file names of the
    page and [resp.NextPage]. *)
Record ListFilesPage : Set := mkListFilesPage {
  filenames : list string;
  NextPage : nat
}.

Section Pages.
(** The answer of the GitHub API to a request for page [opts.Page]. *)
Variable ListFiles : nat → error + ListFilesPage.

(** The loop of [GetChangedFiles], with [opts.Page] and [changedFiles].
    The loop has no bound of its own: [fuel] bounds the number of
    requests, [None] is a loop that has not returned within it. *)
Fixpoint GetChangedFiles_loop (fuel page : nat) (changedFiles : list string)
  : option (list string * option error) :=
  match fuel with
  | 0 => None
  | S fuel' =>
      match ListFiles page with
      | inl e => Some ([], Some (fmt_Errorf_w "listing PR files: " e))
      | inr resp =>
          let changedFiles := changedFiles ++ filenames resp in
          if Nat.eqb (NextPage resp) 0 then Some (changedFiles, None)
          else GetChangedFiles_loop fuel' (NextPage resp) changedFiles
      end
  end.

(** [func (a *Adapter) GetChangedFiles(ctx, owner, repo, prNumber)]. *)
Definition GetChangedFiles (fuel : nat) : option (list string * option error) :=
  GetChangedFiles_loop fuel 0 [].

End Pages.
End prfiles.

(** ** Notions the statements use *)
Import GoStrings domain.

(** Concatenation of a list of strings, in order. *)
Definition strcat (pieces : list string) : string :=
  foldr String.append "" pieces.

(** [e] is, or wraps, a [*NotFoundError]. *)
Inductive wrapsNotFoundError : error → Prop :=
| wraps_self resource ref :
    wrapsNotFoundError (NotFoundError resource ref)
| wraps_inner prefix inner :
    wrapsNotFoundError inner → wrapsNotFoundError (fmt_Errorf_w prefix inner).

(** The number of results of a given status. *)
Definition countStatus (s : Status) (results : list DiffResult) : nat :=
  length (filter (λ r, Status' r = s) results).

(** The counters after one more result of status [s]. *)
Definition bump (s : Status) (acc : nat * nat * nat) : nat * nat * nat :=
  match s, acc with
  | StatusSuccess, (a, b, c) => (S a, b, c)
  | StatusChanges, (a, b, c) => (a, S b, c)
  | StatusError, (a, b, c) => (a, b, S c)
  end.

(** The names of a list in the order of their first occurrence, each once. *)
Fixpoint firstSeen (names : list string) : list string :=
  match names with
  | [] => []
  | n :: rest => n :: filter (λ m, m ≠ n) (firstSeen rest)
  end.

(** The results of chart [name], in their order in [results]. *)
Definition ofChart (name : string) (results : list DiffResult)
  : list DiffResult :=
  filter (λ r, ChartName r = name) results.

(** One group per chart name, in the order of the names' first occurrence;
    a group holds the results of its chart in their order in [results]. *)
Definition groupsOf (results : list DiffResult) : list (list DiffResult) :=
  (λ n, ofChart n results) <$> firstSeen (ChartName <$> results).

(** What holds of [order] and [groups] in [GroupByChart] once the results
    of [prefix] have gone through the loop. *)
Definition grouped (prefix : list DiffResult) (st : GroupState) : Prop :=
  st.2 = groupsOf prefix ∧
  (∀ n i, st.1 !! n = Some i ↔ firstSeen (ChartName <$> prefix) !! i = Some n).

(** [r] with its unified diff erased. *)
Definition withoutUnifiedDiff (r : DiffResult) : DiffResult :=
  {| ChartName := ChartName r;
     Environment := Environment r;
     BaseRef := BaseRef r;
     HeadRef := HeadRef r;
     Status' := Status' r;
     HasChanges := HasChanges r;
     UnifiedDiff := "";
     SemanticDiff := SemanticDiff r;
     Summary := Summary r |}.

(** The conclusion token of a chart's results: "neutral" when one of them
    has status Changes, "success" when none has. *)
Definition conclusionOf (results : list DiffResult) : string :=
  if decide (Exists (λ r, Status' r = StatusChanges) results)
  then "neutral" else "success".

(** How the check-run document of a chart starts, up to its conclusion. *)
Definition checkRunHeader (chartName conclusion : string) : string :=
  "# chart-sentry: " +:+ chartName +:+ nl +:+ nl +:+
  "**Status:** completed" +:+ nl +:+
  "**Conclusion:** " +:+ conclusion +:+ nl +:+ nl.

(** What follows the conclusion in the check-run document. *)
Definition checkRunBody (chartName : string) (results : list DiffResult)
  : string :=
  "## Helm diff — " +:+ chartName +:+ nl +:+ nl +:+
  "### Summary" +:+ nl +:+
  "Analyzed " +:+ Itoa (length results) +:+ " environment(s): "
    +:+ Itoa (countStatus StatusChanges results) +:+ " changed, "
    +:+ Itoa (length results - countStatus StatusChanges results)
    +:+ " unchanged" +:+ nl +:+ nl +:+
  "### Output" +:+ nl +:+
  app.checkRunSections "" 0 results.

(** The two-state label of the summary table. *)
Definition labelOf (s : Status) : string :=
  match s with
  | StatusChanges => "Changed"
  | StatusSuccess | StatusError => "No Changes"
  end.

(** The title and the table header of the summary document. *)
Definition prCommentHeader : string :=
  "## Chart-Sentry Diff Report" +:+ nl +:+ nl +:+
  "| Chart | Environment | Status |" +:+ nl +:+
  "|-------|-------------|--------|" +:+ nl.

(** One table row and one detail section of the summary document. *)
Definition tableRow (r : DiffResult) : string := app.prCommentRow "" r.
Definition detailSection (r : DiffResult) : string := app.prCommentDetail "" r.

(** A line is blank when nothing but white space is on it. *)
Definition blank (line : string) : Prop := TrimSpace line = "".

(** The first line of a text: what precedes its first line feed. *)
Definition firstLine (text : string) : string :=
  match Split text LF with
  | [] => ""
  | line :: _ => line
  end.

(** A line that [cleanDyffOutput] does not skip for what is on it: it
    neither contains the temp directory nor is a banner line. *)
Definition keptLine (tmpDir line : string) : Prop :=
  Contains line tmpDir = false ∧ dyffdiff.isBanner line = false.

#[global] Instance keptLine_dec tmpDir line : Decision (keptLine tmpDir line).
Proof. unfold keptLine. apply _. Defined.

(** The lines without the blank ones at the start. *)
Fixpoint dropLeadingBlank (lines : list string) : list string :=
  match lines with
  | [] => []
  | line :: rest =>
      if decide (blank line) then dropLeadingBlank rest else lines
  end.

(** No line feed occurs in [s]. *)
Fixpoint noLF (s : string) : Prop :=
  match s with
  | "" => True
  | String c s' => c ≠ LF ∧ noLF s'
  end.

(** No slash occurs in [s]. *)
Fixpoint noSlash (s : string) : Prop :=
  match s with
  | "" => True
  | String c s' => c ≠ "/"%char ∧ noSlash s'
  end.

(** [path] is ["charts/" ++ name ++ rest] where [name] is the whole second
    segment: it has no slash and [rest] is empty or starts a third segment. *)
Definition underCharts (path name : string) : Prop :=
  ∃ rest, path = "charts/" +:+ name +:+ rest ∧ noSlash name ∧
          (rest = "" ∨ ∃ rest', rest = String "/" rest').

(** [e] wrapped by [fmt.Errorf(prefix + "%w", ...)] once per prefix, the
    first prefix outermost. *)
Definition wrapAll (prefixes : list string) (e : error) : error :=
  foldr fmt_Errorf_w e prefixes.

(** The three texts of the message fallback. *)
Definition fallbackTexts : list string :=
  ["not found"; "no such file or directory"; "404"].

(** [s] is [before ++ t ++ after] for some [before] and [after]. *)
Definition substringOf (t s : string) : Prop :=
  ∃ before after, s = before +:+ t +:+ after.

(** No space occurs in [s]. *)
Fixpoint noSpace (s : string) : Prop :=
  match s with
  | "" => True
  | String c s' => c ≠ " "%char ∧ noSpace s'
  end.

(** The counters of two lists, added up. *)
Definition addCounts (a b : nat * nat * nat) : nat * nat * nat :=
  match a, b with
  | (s1, c1, e1), (s2, c2, e2) => (s1 + s2, c1 + c2, e1 + e2)
  end.

(** A run of dyff with another text on its standard error. *)
Definition withStderr (text : string) (run : dyffdiff.DyffRun)
  : dyffdiff.DyffRun :=
  dyffdiff.mkDyffRun (dyffdiff.lookPath run) (dyffdiff.mkdirTemp run)
    (dyffdiff.writeBase run) (dyffdiff.writeHead run) (dyffdiff.stdout run) text.

(** The section of one environment in the check-run document. *)
Definition checkRunSectionOf (r : DiffResult) : string :=
  app.checkRunSection "" 0 r.

(** The two diff blocks of a section of the check-run document. *)
Definition semanticBlock (r : DiffResult) : string :=
  if decide (SemanticDiff r = "") then ""
  else "**Semantic Diff (dyff):**" +:+ nl +:+
       "```diff" +:+ nl +:+ SemanticDiff r +:+ nl +:+ "```" +:+ nl +:+ nl.

Definition unifiedBlock (r : DiffResult) : string :=
  if decide (UnifiedDiff r = "") then ""
  else "**Unified Diff (line-based):**" +:+ nl +:+
       "```diff" +:+ nl +:+ UnifiedDiff r +:+ nl +:+ "```" +:+ nl.

(** The errors that the calls of a fetch have answered. *)
Definition answeredErrors (run : sourcectrl.FetchRun) : list error :=
  match sourcectrl.getArchiveLink run with inl e => [e] | inr _ => [] end ++
  match sourcectrl.newRequest run with Some e => [e] | None => [] end ++
  match sourcectrl.httpDo run with inl e => [e] | inr _ => [] end ++
  match sourcectrl.mkdirTemp run with inl e => [e] | inr _ => [] end ++
  match sourcectrl.extractTarGz run with Some e => [e] | None => [] end ++
  match sourcectrl.readDir run with inl e => [e] | inr _ => [] end.

(** The fetch got as far as [os.Stat] on the chart directory of an
    archive extracted to [tmpDir] with first entry [entry0]. *)
Definition reachesStat (run : sourcectrl.FetchRun) (tmpDir entry0 : string)
  : Prop :=
  (∃ url, sourcectrl.getArchiveLink run = inr url) ∧
  sourcectrl.newRequest run = None ∧
  sourcectrl.httpDo run = inr sourcectrl.StatusOK ∧
  sourcectrl.mkdirTemp run = inr tmpDir ∧
  sourcectrl.extractTarGz run = None ∧
  (∃ entries, sourcectrl.readDir run = inr (entry0 :: entries)).

(** The temp directory [tmpDir] was created: every call before
    [os.MkdirTemp] succeeded, with status 200, and it answered [tmpDir]. *)
Definition createsTemp (run : sourcectrl.FetchRun) (tmpDir : string) : Prop :=
  (∃ url, sourcectrl.getArchiveLink run = inr url) ∧
  sourcectrl.newRequest run = None ∧
  sourcectrl.httpDo run = inr sourcectrl.StatusOK ∧
  sourcectrl.mkdirTemp run = inr tmpDir.

(** A join of two path elements with a slash, for concrete runs. *)
Definition joinWithSlash (dir elem : string) : string := dir +:+ "/" +:+ elem.

(** The pages that the API serves from page [page] on, up to the first one
    without a next page. *)
Inductive servesPages (ListFiles : nat → error + prfiles.ListFilesPage)
  : nat → list prfiles.ListFilesPage → Prop :=
| serves_last page resp :
    ListFiles page = inr resp → prfiles.NextPage resp = 0 →
    servesPages ListFiles page [resp]
| serves_next page resp pages :
    ListFiles page = inr resp → prfiles.NextPage resp ≠ 0 →
    servesPages ListFiles (prfiles.NextPage resp) pages →
    servesPages ListFiles page (resp :: pages).

(** The pages served from [page] on, up to a request that fails with [e]. *)
Inductive servesUntilError (ListFiles : nat → error + prfiles.ListFilesPage)
  : nat → list prfiles.ListFilesPage → error → Prop :=
| fails_here page e :
    ListFiles page = inl e → servesUntilError ListFiles page [] e
| fails_later page resp pages e :
    ListFiles page = inr resp → prfiles.NextPage resp ≠ 0 →
    servesUntilError ListFiles (prfiles.NextPage resp) pages e →
    servesUntilError ListFiles page (resp :: pages) e.

(** ** Results of one environment (claims C1 and C2) *)
Section Classification.
Variables chart envName baseRef headRef : string.

Lemma envResult_fields sem uni :
  let r := app.envResult chart envName baseRef headRef sem uni in
  ChartName r = chart ∧ Environment r = envName ∧
  SemanticDiff r = sem ∧ UnifiedDiff r = uni.
Proof.
  unfold app.envResult.
  destruct (bool_decide (sem ≠ "") || bool_decide (uni ≠ "")); done.
Qed.

Lemma envResult_empty :
  app.envResult chart envName baseRef headRef "" "" =
  mkDiffResult chart envName baseRef headRef StatusSuccess false "" ""
    "No changes detected.".
Proof. reflexivity. Qed.

Lemma envResult_nonempty sem uni :
  sem ≠ "" ∨ uni ≠ "" →
  app.envResult chart envName baseRef headRef sem uni =
  mkDiffResult chart envName baseRef headRef StatusChanges false uni sem
    ("Changes detected in " +:+ chart +:+ " for environment " +:+ envName +:+ ".").
Proof.
  intros H. unfold app.envResult.
  assert (bool_decide (sem ≠ "") || bool_decide (uni ≠ "") = true) as ->; [|done].
  apply orb_true_iff.
  destruct H; [left | right]; by apply bool_decide_eq_true.
Qed.

(** C1: the status is Success with summary "No changes detected." exactly
    when both diff outputs are empty; it is Changes, with a summary that
    names the chart and the environment, as soon as one is non-empty. *)
Theorem envResult_classification sem uni :
  let r := app.envResult chart envName baseRef headRef sem uni in
  (Status' r = StatusSuccess ∧ Summary r = "No changes detected."
     ↔ sem = "" ∧ uni = "") ∧
  (Status' r = StatusSuccess ↔ sem = "" ∧ uni = "") ∧
  (Status' r = StatusChanges ∧
   Summary r = "Changes detected in " +:+ chart +:+ " for environment "
                 +:+ envName +:+ "."
     ↔ sem ≠ "" ∨ uni ≠ "").
Proof.
  destruct (decide (sem = "")) as [-> | Hs];
    [destruct (decide (uni = "")) as [-> | Hu] |].
  - rewrite envResult_empty. simpl. intuition congruence.
  - rewrite envResult_nonempty by auto. simpl. intuition congruence.
  - rewrite envResult_nonempty by auto. simpl. intuition congruence.
Qed.

(** C2: every result of an environment satisfies the status invariant:
    Success has both diffs empty, Changes has one of them non-empty, Error
    has both empty and the failure's message as its summary. *)
Theorem runEnvironment_invariant outcome :
  let r := app.runEnvironment chart envName baseRef headRef outcome in
  (Status' r = StatusSuccess → UnifiedDiff r = "" ∧ SemanticDiff r = "") ∧
  (Status' r = StatusChanges → UnifiedDiff r ≠ "" ∨ SemanticDiff r ≠ "") ∧
  (Status' r = StatusError →
     UnifiedDiff r = "" ∧ SemanticDiff r = "" ∧
     ∃ failure, outcome = app.RenderFailure failure ∧ Summary r = Error failure).
Proof.
  destruct outcome as [sem uni | failure]; simpl.
  - destruct (decide (sem = "")) as [-> | Hs];
      [destruct (decide (uni = "")) as [-> | Hu] |].
    + rewrite envResult_empty. simpl. intuition congruence.
    + rewrite envResult_nonempty by auto. simpl. intuition congruence.
    + rewrite envResult_nonempty by auto. simpl. intuition congruence.
  - repeat split; try discriminate. eauto.
Qed.

End Classification.

(** Each of the three statuses is the status of some environment result. *)
Lemma runEnvironment_statuses :
  Status' (app.runEnvironment "my-app" "prod" "main" "feat" (app.Diffed "" ""))
    = StatusSuccess ∧
  Status' (app.runEnvironment "my-app" "prod" "main" "feat"
             (app.Diffed "" "-replicas: 3")) = StatusChanges ∧
  Status' (app.runEnvironment "my-app" "prod" "main" "feat"
             (app.RenderFailure (errors_New "template error"))) = StatusError.
Proof. done. Qed.

(** ** errors.go (claim C3) *)
Section NotFound.

Lemma errors_As_wraps e :
  is_Some (errors_As_NotFoundError e) ↔ wrapsNotFoundError e.
Proof.
  induction e as [msg | resource ref | prefix inner IH]; simpl.
  - split; [intros [? [=]] | inversion 1].
  - split; [constructor | eauto].
  - rewrite IH. split; [by constructor | by inversion 1].
Qed.

Lemma IsNotFound_Some e : IsNotFound (Some e) = true ↔ wrapsNotFoundError e.
Proof.
  rewrite <- errors_As_wraps. unfold IsNotFound.
  destruct (errors_As_NotFoundError e) as [p|].
  - split; eauto.
  - split; [done | by intros [? [=]]].
Qed.

(** [IsNotFound] of errors.go answers true exactly for a non-nil error that
    is or wraps a [NotFoundError]; the message plays no part. *)
Lemma IsNotFound_typed_only :
  (∀ err, IsNotFound err = true ↔ ∃ e, err = Some e ∧ wrapsNotFoundError e) ∧
  (∀ msg, IsNotFound (Some (errors_New msg)) = false).
Proof.
  split.
  - intros [e|].
    + rewrite IsNotFound_Some. split.
      * intros He. by exists e.
      * by intros (e' & [= <-] & He).
    + split; [done | by intros (e & [=] & _)].
  - done.
Qed.

Lemma containsAny_nil s : domain_fallback.containsAny s [] = false.
Proof. done. Qed.

(** The revision with the message fallback answers what errors.go answers,
    or true when the message contains one of three texts. *)
Lemma IsNotFound_fallback_spec e :
  domain_fallback.IsNotFound (Some e) =
  IsNotFound (Some e) ||
  domain_fallback.containsAny (Error e)
    ["not found"; "no such file or directory"; "404"].
Proof.
  unfold domain_fallback.IsNotFound, IsNotFound.
  by destruct (errors_As_NotFoundError e).
Qed.


End NotFound.

(** ** diff_result.go: PreferredDiff and CountByStatus (claims C7 and C9) *)
Section Counting.

Lemma CountByStatus_step_bump acc r :
  CountByStatus_step acc r = bump (Status' r) acc.
Proof. destruct acc as [[a b] c]. unfold CountByStatus_step. by destruct (Status' r). Qed.

Lemma CountByStatus_snoc results r :
  CountByStatus (results ++ [r]) = bump (Status' r) (CountByStatus results).
Proof.
  unfold CountByStatus. rewrite fold_left_app. simpl.
  apply CountByStatus_step_bump.
Qed.

Lemma countStatus_snoc s results r :
  countStatus s (results ++ [r]) =
  countStatus s results + (if decide (Status' r = s) then 1 else 0).
Proof.
  unfold countStatus. rewrite filter_app, length_app. f_equal.
  rewrite filter_cons, filter_nil. by case_decide.
Qed.

Lemma CountByStatus_counts results :
  CountByStatus results =
  (countStatus StatusSuccess results, countStatus StatusChanges results,
   countStatus StatusError results).
Proof.
  induction results as [| r results IH] using rev_ind; [done |].
  rewrite CountByStatus_snoc, IH, !countStatus_snoc.
  destruct (Status' r); simpl; repeat f_equal; lia.
Qed.


End Counting.

(** ** diff_result.go: GroupByChart (claim C4) *)
Section Grouping.
Implicit Types (results prefix : list DiffResult) (names : list string).

Lemma firstSeen_elem names n : n ∈ firstSeen names ↔ n ∈ names.
Proof.
  induction names as [| m names IH]; simpl; [done |].
  rewrite !elem_of_cons, list_elem_of_filter, IH.
  destruct (decide (n = m)); tauto.
Qed.

Lemma firstSeen_NoDup names : NoDup (firstSeen names).
Proof.
  induction names as [| m names IH]; simpl; constructor.
  - rewrite list_elem_of_filter. tauto.
  - by apply NoDup_filter.
Qed.

(** Reading the names left to right: a name that was seen changes nothing,
    a new one goes to the end. *)
Lemma firstSeen_snoc names n :
  firstSeen (names ++ [n]) =
  if decide (n ∈ names) then firstSeen names else firstSeen names ++ [n].
Proof.
  induction names as [| m names IH]; simpl; [done |].
  rewrite IH. clear IH.
  destruct (decide (n ∈ names)) as [Hin | Hout].
  - by rewrite (decide_True (P := n ∈ m :: names)) by by right.
  - rewrite filter_app, filter_cons, filter_nil.
    destruct (decide (n = m)) as [-> | Hne].
    + rewrite (decide_True (P := m ∈ m :: names)) by left.
      rewrite decide_False by tauto. by rewrite app_nil_r.
    + rewrite (decide_False (P := n ∈ m :: names))
        by (rewrite elem_of_cons; tauto).
      by rewrite decide_True by done.
Qed.

Lemma ofChart_snoc n results r :
  ofChart n (results ++ [r]) =
  ofChart n results ++ (if decide (ChartName r = n) then [r] else []).
Proof.
  unfold ofChart. rewrite filter_app, filter_cons, filter_nil.
  by case_decide.
Qed.

Lemma ofChart_app n results1 results2 :
  ofChart n (results1 ++ results2) = ofChart n results1 ++ ofChart n results2.
Proof. apply filter_app. Qed.

Lemma ofChart_absent n results :
  n ∉ ChartName <$> results → ofChart n results = [].
Proof.
  intros Hn. unfold ofChart. induction results as [| r results IH]; [done |].
  rewrite fmap_cons, not_elem_of_cons in Hn. destruct Hn as [Hne Hn].
  rewrite filter_cons, decide_False by done. auto.
Qed.

Lemma ofChart_present n results :
  n ∈ ChartName <$> results → ofChart n results ≠ [].
Proof.
  intros (r & -> & Hr)%list_elem_of_fmap Hnil.
  exact (filter_nil_not_elem_of _ _ r Hnil eq_refl Hr).
Qed.

(** The first result of a chart opens a group at the end. *)
Lemma groupsOf_snoc_new results r :
  ChartName r ∉ ChartName <$> results →
  groupsOf (results ++ [r]) = groupsOf results ++ [[r]].
Proof.
  intros Hout. unfold groupsOf.
  rewrite fmap_app. change (ChartName <$> [r]) with [ChartName r].
  rewrite firstSeen_snoc, decide_False by done.
  rewrite fmap_app. simpl. f_equal.
  - apply list_fmap_ext. intros i m Hm.
    rewrite ofChart_snoc, decide_False, app_nil_r; [done |].
    intros Heq. apply Hout. rewrite Heq.
    apply firstSeen_elem. by eapply list_elem_of_lookup_2.
  - rewrite ofChart_snoc, decide_True by done.
    by rewrite ofChart_absent.
Qed.

(** A later result of a chart goes to the end of the chart's group. *)
Lemma groupsOf_snoc_old results r i :
  firstSeen (ChartName <$> results) !! i = Some (ChartName r) →
  groupsOf (results ++ [r]) =
  <[i := ofChart (ChartName r) results ++ [r]]> (groupsOf results).
Proof.
  intros Hi. unfold groupsOf.
  assert (ChartName r ∈ ChartName <$> results) as Hin.
  { apply firstSeen_elem. by eapply list_elem_of_lookup_2. }
  rewrite fmap_app. change (ChartName <$> [r]) with [ChartName r].
  rewrite firstSeen_snoc, decide_True by done.
  apply list_eq. intros j. rewrite list_lookup_fmap.
  destruct (decide (i = j)) as [<- | Hne].
  - rewrite list_lookup_insert_eq
      by (rewrite length_fmap; by eapply lookup_lt_Some).
    rewrite Hi. simpl. by rewrite ofChart_snoc, decide_True.
  - rewrite list_lookup_insert_ne, list_lookup_fmap by done.
    destruct (firstSeen (ChartName <$> results) !! j) as [m |] eqn:Hj; [| done].
    simpl. rewrite ofChart_snoc, decide_False, app_nil_r; [done |].
    intros Heq. apply Hne.
    eapply NoDup_lookup; [apply firstSeen_NoDup | done |].
    by rewrite Hj, Heq.
Qed.

Lemma grouped_init : grouped [] (∅, []).
Proof.
  split; [done |]. intros n i. simpl. by rewrite lookup_empty, lookup_nil.
Qed.

Lemma grouped_step prefix st r :
  grouped prefix st →
  ∃ st', GroupByChart_step st r = Some st' ∧ grouped (prefix ++ [r]) st'.
Proof.
  destruct st as [order groups]. intros [Hg Ho]. simpl in Hg, Ho. subst groups.
  unfold GroupByChart_step, grouped.
  rewrite fmap_app. change (ChartName <$> [r]) with [ChartName r].
  rewrite firstSeen_snoc.
  set (names := firstSeen (ChartName <$> prefix)) in *.
  destruct (order !! ChartName r) as [idx |] eqn:Hidx.
  - (* the chart has its group already *)
    apply Ho in Hidx.
    assert (ChartName r ∈ ChartName <$> prefix) as Hin.
    { apply firstSeen_elem. eapply list_elem_of_lookup_2, Hidx. }
    rewrite decide_True by done.
    assert (groupsOf prefix !! idx = Some (ofChart (ChartName r) prefix)) as ->.
    { unfold groupsOf. fold names. by rewrite list_lookup_fmap, Hidx. }
    simpl. eexists; split; [done |]. split; [| done]. simpl.
    symmetry. by apply groupsOf_snoc_old.
  - (* first result of the chart: a new group at the end *)
    assert (ChartName r ∉ names) as Hout.
    { intros [i Hi]%list_elem_of_lookup. apply Ho in Hi. congruence. }
    assert (ChartName r ∉ ChartName <$> prefix) as Hout'.
    { by rewrite <- firstSeen_elem. }
    rewrite decide_False by done.
    assert (length (groupsOf prefix) = length names) as Hlen.
    { unfold groupsOf. by rewrite length_fmap. }
    rewrite lookup_app_r, Nat.sub_diag by done. simpl.
    eexists; split; [done |]. split; simpl.
    + rewrite insert_app_r_alt, Nat.sub_diag by done. simpl.
      symmetry. by apply groupsOf_snoc_new.
    + intros n i. rewrite Hlen.
      destruct (decide (n = ChartName r)) as [-> | Hne].
      * rewrite lookup_insert_eq. split.
        -- intros [= <-]. by rewrite lookup_app_r, Nat.sub_diag.
        -- intros Hi. f_equal.
           destruct (decide (i < length names)) as [Hlt | Hge].
           ++ rewrite lookup_app_l in Hi by done.
              exfalso. apply Hout. by eapply list_elem_of_lookup_2.
           ++ apply lookup_lt_Some in Hi.
              rewrite length_app in Hi. simpl in Hi. lia.
      * rewrite lookup_insert_ne by done. rewrite Ho. split.
        -- intros Hi. by apply lookup_app_l_Some.
        -- intros Hi. apply lookup_app_Some in Hi as [Hi | [_ Hi]]; [done |].
           destruct (i - length names) as [| k]; simpl in Hi;
             [congruence | done].
Qed.

Lemma grouped_loop rest : ∀ prefix st,
  grouped prefix st →
  ∃ st', GroupByChart_loop rest st = Some st' ∧ grouped (prefix ++ rest) st'.
Proof.
  induction rest as [| r rest IH]; intros prefix st Hst; simpl.
  - rewrite app_nil_r. eauto.
  - destruct (grouped_step prefix st r Hst) as (st1 & -> & Hst1). simpl.
    destruct (IH _ _ Hst1) as (st' & Hloop & Hst').
    rewrite <- app_assoc in Hst'. eauto.
Qed.

(** The loop never indexes out of range, and it builds [groupsOf]. *)
Lemma GroupByChart_groupsOf results :
  GroupByChart results = Some (groupsOf results).
Proof.
  unfold GroupByChart.
  destruct (grouped_loop results [] _ grouped_init)
    as ([order groups] & -> & Hg & _).
  simpl in *. by rewrite Hg.
Qed.

Lemma ofChart_ofChart n m results :
  ofChart n (ofChart m results) =
  if decide (n = m) then ofChart n results else [].
Proof.
  unfold ofChart. induction results as [| r results IH]; simpl.
  - by case_decide.
  - rewrite !filter_cons.
    destruct (decide (ChartName r = m)) as [Hm | Hm].
    + rewrite filter_cons, IH.
      destruct (decide (n = m)) as [-> | Hne].
      * by rewrite !decide_True by done.
      * by rewrite decide_False by congruence.
    + rewrite IH. destruct (decide (n = m)) as [-> | Hne]; [| done].
      by rewrite decide_False by done.
Qed.

Lemma ofChart_concat n names results :
  NoDup names →
  ofChart n (concat ((λ m, ofChart m results) <$> names)) =
  if decide (n ∈ names) then ofChart n results else [].
Proof.
  induction 1 as [| m names Hm Hnd IH]; [done |].
  rewrite fmap_cons, concat_cons, ofChart_app, IH, ofChart_ofChart.
  destruct (decide (n = m)) as [-> | Hne].
  - rewrite (decide_False (P := m ∈ names)) by done.
    rewrite decide_True by left. by rewrite app_nil_r.
  - simpl. destruct (decide (n ∈ names)).
    + by rewrite decide_True by by right.
    + by rewrite decide_False by (rewrite elem_of_cons; tauto).
Qed.

Lemma concat_ofChart_Permutation names : ∀ results,
  NoDup names →
  (∀ r, r ∈ results → ChartName r ∈ names) →
  concat ((λ m, ofChart m results) <$> names) ≡ₚ results.
Proof.
  induction names as [| n names IH]; intros results Hnd Hall.
  - destruct results as [| r results]; [done |].
    specialize (Hall r). rewrite elem_of_cons, elem_of_nil in Hall. tauto.
  - apply NoDup_cons in Hnd as [Hn Hnd].
    rewrite fmap_cons, concat_cons.
    set (others := filter (λ r, ¬ ChartName r = n) results).
    rewrite <- (filter_app_complement (λ r, ChartName r = n) results) at 2.
    apply Permutation_app; [done |]. fold others.
    assert ((λ m, ofChart m results) <$> names =
            (λ m, ofChart m others) <$> names) as ->.
    { apply list_fmap_ext. intros i m Hm.
      unfold ofChart, others. rewrite list_filter_filter.
      apply list_filter_iff. intros r. split; [| tauto].
      intros ->. split; [done |]. intros ->. apply Hn.
      by eapply list_elem_of_lookup_2. }
    apply IH; [done |].
    intros r [Hr Hin]%list_elem_of_filter.
    specialize (Hall r Hin). rewrite elem_of_cons in Hall. tauto.
Qed.

(** C4: the group of a chart is created where the chart is first seen,
    every later result of the chart goes to the end of that group, and the
    groups, flattened, are a permutation of the input in which the results
    of one chart keep their order; no index of the loop is out of range. *)
Theorem GroupByChart_stable results :
  ∃ groups,
    GroupByChart results = Some groups ∧
    groups = (λ n, ofChart n results) <$> firstSeen (ChartName <$> results) ∧
    (∀ r, ChartName r ∉ ChartName <$> results →
          GroupByChart (results ++ [r]) = Some (groups ++ [[r]])) ∧
    (∀ r i, firstSeen (ChartName <$> results) !! i = Some (ChartName r) →
          GroupByChart (results ++ [r]) =
          Some (<[i := ofChart (ChartName r) results ++ [r]]> groups)) ∧
    concat groups ≡ₚ results ∧
    (∀ n, ofChart n (concat groups) = ofChart n results) ∧
    (∀ g, g ∈ groups → g ≠ []).
Proof.
  exists (groupsOf results).
  split; [apply GroupByChart_groupsOf |]. split; [done |].
  split; [| split; [| split; [| split]]].
  - intros r Hr. by rewrite GroupByChart_groupsOf, groupsOf_snoc_new.
  - intros r i Hi. by rewrite GroupByChart_groupsOf, (groupsOf_snoc_old _ _ i).
  - apply concat_ofChart_Permutation; [apply firstSeen_NoDup |].
    intros r Hr. apply firstSeen_elem. by apply list_elem_of_fmap_2.
  - intros n. unfold groupsOf.
    rewrite ofChart_concat by apply firstSeen_NoDup.
    case_decide as Hn; [done |].
    symmetry. apply ofChart_absent. by rewrite <- firstSeen_elem.
  - intros g (n & -> & Hn)%list_elem_of_fmap.
    apply ofChart_present. by apply firstSeen_elem.
Qed.

End Grouping.

(** ** Strings: append, prefixes and substrings *)
Section Strings.
Implicit Types (s t u : string).

Lemma str_app_nil_l s : "" +:+ s = s.
Proof. done. Qed.

Lemma str_app_cons c s t : String c s +:+ t = String c (s +:+ t).
Proof. done. Qed.

Lemma str_app_assoc s t u : (s +:+ t) +:+ u = s +:+ t +:+ u.
Proof.
  induction s as [| c s IH]; [done |].
  rewrite !str_app_cons. by f_equal.
Qed.

Lemma str_app_nil_r s : s +:+ "" = s.
Proof.
  induction s as [| c s IH]; [done |].
  rewrite str_app_cons. by f_equal.
Qed.

Lemma str_app_eq_nil s t : s +:+ t = "" → s = "" ∧ t = "".
Proof. by destruct s. Qed.

Lemma strcat_cons s pieces : strcat (s :: pieces) = s +:+ strcat pieces.
Proof. done. Qed.

End Strings.

(** ** The report formatters (claims C5, C6 and C7) *)
Section Reports.
Implicit Types (r : DiffResult) (results : list DiffResult) (sb : string).

Lemma statusLabel_labelOf r : app.statusLabel r = labelOf (Status' r).
Proof. unfold app.statusLabel. by destruct (Status' r). Qed.

Lemma countChanged_step_eq changed unchanged r :
  app.countChanged_step (changed, unchanged) r =
  if decide (Status' r = StatusChanges) then (S changed, unchanged)
  else (changed, S unchanged).
Proof. unfold app.countChanged_step. by destruct (Status' r). Qed.

Lemma countChanged_fold results : ∀ changed unchanged,
  fold_left app.countChanged_step results (changed, unchanged) =
  (changed + countStatus StatusChanges results,
   unchanged + (length results - countStatus StatusChanges results)).
Proof.
  induction results as [| r results IH]; intros changed unchanged.
  - unfold countStatus. simpl. f_equal; lia.
  - assert (countStatus StatusChanges results ≤ length results) as Hle
      by apply length_filter.
    change (fold_left app.countChanged_step (r :: results) (changed, unchanged))
      with (fold_left app.countChanged_step results
              (app.countChanged_step (changed, unchanged) r)).
    rewrite countChanged_step_eq. unfold countStatus in *.
    rewrite filter_cons.
    destruct (decide (Status' r = StatusChanges)) as [Hr | Hr];
      rewrite IH; simpl; f_equal; lia.
Qed.

Lemma countStatus_Exists s results :
  0 < countStatus s results ↔ Exists (λ r, Status' r = s) results.
Proof.
  unfold countStatus. induction results as [| r results IH].
  - rewrite Exists_nil. simpl. lia.
  - rewrite Exists_cons, filter_cons, <- IH.
    case_decide; simpl; [| tauto]. split; [tauto | lia].
Qed.

Lemma checkRunSection_app sb i r :
  app.checkRunSection sb i r = sb +:+ app.checkRunSection "" i r.
Proof.
  unfold app.checkRunSection.
  destruct (0 <? i)%nat, (bool_decide (UnifiedDiff r = "")),
    (bool_decide (SemanticDiff r = "")), (bool_decide (SemanticDiff r ≠ "")),
    (bool_decide (UnifiedDiff r ≠ "")); simpl;
    by rewrite ?str_app_assoc.
Qed.

Lemma checkRunSections_app results : ∀ sb i,
  app.checkRunSections sb i results = sb +:+ app.checkRunSections "" i results.
Proof.
  induction results as [| r results IH]; intros sb i; simpl.
  - by rewrite str_app_nil_r.
  - rewrite IH, (IH (app.checkRunSection "" i r)), checkRunSection_app.
    by rewrite str_app_assoc.
Qed.

Lemma formatCheckRunMarkdown_cons r0 rest :
  app.formatCheckRunMarkdown (r0 :: rest) =
  checkRunHeader (ChartName r0) (conclusionOf (r0 :: rest)) +:+
  checkRunBody (ChartName r0) (r0 :: rest).
Proof.
  unfold app.formatCheckRunMarkdown. rewrite countChanged_fold.
  rewrite !Nat.add_0_l. cbv zeta.
  rewrite checkRunSections_app.
  assert ((if (0 <? countStatus StatusChanges (r0 :: rest))%nat
           then "neutral" else "success") = conclusionOf (r0 :: rest)) as ->.
  { unfold conclusionOf.
    destruct (Nat.ltb_spec 0 (countStatus StatusChanges (r0 :: rest))) as [H | H].
    - by rewrite decide_True by by apply countStatus_Exists.
    - rewrite decide_False; [done |]. rewrite <- countStatus_Exists. lia. }
  unfold checkRunHeader, checkRunBody.
  by rewrite ?str_app_assoc.
Qed.

(** C5, for a chart that has results: the document opens with the chart
    name and a conclusion that is "neutral" when some result has status
    Changes and "success" when every result is Success or Error.  Without
    any result the document is empty. *)
Theorem formatCheckRunMarkdown_conclusion r0 rest :
  let results := r0 :: rest in
  app.formatCheckRunMarkdown results =
    checkRunHeader (ChartName r0) (conclusionOf results) +:+
    checkRunBody (ChartName r0) results ∧
  (conclusionOf results = "neutral"
     ↔ Exists (λ r, Status' r = StatusChanges) results) ∧
  (conclusionOf results = "success"
     ↔ Forall (λ r, Status' r = StatusSuccess ∨ Status' r = StatusError) results) ∧
  app.formatCheckRunMarkdown [] = "".
Proof.
  intros results. split; [apply formatCheckRunMarkdown_cons |].
  unfold conclusionOf.
  destruct (decide (Exists (λ r, Status' r = StatusChanges) results))
    as [Hex | Hnex].
  - repeat split; try done.
    intros Hall. exfalso. apply Exists_exists in Hex as (r & Hr & Hch).
    rewrite Forall_forall in Hall. specialize (Hall r Hr).
    rewrite Hch in Hall. by destruct Hall.
  - repeat split; try done.
    intros _. apply Forall_forall. intros r Hr.
    destruct (Status' r) eqn:Hst; [by left | | by right].
    exfalso. apply Hnex, Exists_exists. eauto.
Qed.

(** The claim C5 as the specification has it, for every sequence: false
    for the empty one, whose document holds no conclusion at all. *)
Lemma formatCheckRunMarkdown_nil_no_conclusion :
  ¬ (∀ results, ∃ before after,
       app.formatCheckRunMarkdown results =
       before +:+ "**Conclusion:** " +:+ conclusionOf results +:+ after).
Proof.
  intros H. destruct (H []) as (before & after & Heq).
  simpl in Heq. symmetry in Heq.
  apply str_app_eq_nil in Heq as [_ Heq]. discriminate.
Qed.

Lemma prCommentRow_app sb r : app.prCommentRow sb r = sb +:+ tableRow r.
Proof. done. Qed.

Lemma prCommentDetail_app sb r :
  app.prCommentDetail sb r = sb +:+ detailSection r.
Proof.
  unfold detailSection, app.prCommentDetail.
  destruct (bool_decide (Status' r ≠ StatusChanges)),
    (bool_decide (SemanticDiff r = "")); simpl; by rewrite ?str_app_assoc.
Qed.

Lemma fold_left_rows results : ∀ sb,
  fold_left app.prCommentRow results sb = sb +:+ strcat (tableRow <$> results).
Proof.
  induction results as [| r results IH]; intros sb; simpl.
  - by rewrite str_app_nil_r.
  - by rewrite IH, prCommentRow_app, str_app_assoc.
Qed.

Lemma fold_left_details results : ∀ sb,
  fold_left app.prCommentDetail results sb =
  sb +:+ strcat (detailSection <$> results).
Proof.
  induction results as [| r results IH]; intros sb; simpl.
  - by rewrite str_app_nil_r.
  - by rewrite IH, prCommentDetail_app, str_app_assoc.
Qed.

(** The summary document: the header, one row per result, an empty line,
    one detail section per result. *)
Lemma formatPRComment_layout results :
  app.formatPRComment results =
  prCommentHeader +:+ strcat (tableRow <$> results) +:+ nl +:+
  strcat (detailSection <$> results).
Proof.
  unfold app.formatPRComment. cbv zeta.
  rewrite fold_left_details, fold_left_rows.
  unfold prCommentHeader. by rewrite ?str_app_assoc.
Qed.

Lemma tableRow_eq r :
  tableRow r =
  "| " +:+ ChartName r +:+ " | " +:+ Environment r +:+ " | "
       +:+ labelOf (Status' r) +:+ " |" +:+ nl.
Proof. unfold tableRow, app.prCommentRow. by rewrite statusLabel_labelOf. Qed.

Lemma detailSection_unchanged r :
  Status' r ≠ StatusChanges →
  detailSection r =
  "### " +:+ ChartName r +:+ "/" +:+ Environment r +:+ nl +:+
  "No changes detected." +:+ nl +:+ nl.
Proof.
  intros Hr. unfold detailSection, app.prCommentDetail.
  rewrite bool_decide_eq_true_2 by done. simpl. by rewrite ?str_app_assoc.
Qed.

Lemma detailSection_changed r :
  Status' r = StatusChanges →
  detailSection r =
  "### " +:+ ChartName r +:+ "/" +:+ Environment r +:+ nl +:+
  "<details><summary>View diff</summary>" +:+ nl +:+ nl +:+
  "```diff" +:+ nl +:+ PreferredDiff r +:+ nl +:+ "```" +:+ nl +:+
  "</details>" +:+ nl +:+ nl.
Proof.
  intros Hr. unfold detailSection, app.prCommentDetail, PreferredDiff.
  rewrite bool_decide_eq_false_2 by (by intros []).
  destruct (decide (SemanticDiff r = "")) as [Hs | Hs].
  - rewrite bool_decide_eq_true_2, bool_decide_eq_false_2 by (done || tauto).
    simpl. by rewrite ?str_app_assoc.
  - rewrite bool_decide_eq_false_2, bool_decide_eq_true_2 by done.
    simpl. by rewrite ?str_app_assoc.
Qed.

(** C6: the table of the summary document has one row per result, in
    order, with the chart, the environment and a label that is "Changed"
    for status Changes and "No Changes" for Success and for Error; the
    detail section of an Error result reads "No changes detected." *)
Theorem formatPRComment_table results :
  app.formatPRComment results =
    prCommentHeader +:+ strcat (tableRow <$> results) +:+ nl +:+
    strcat (detailSection <$> results) ∧
  length (tableRow <$> results) = length results ∧
  (∀ r, tableRow r =
        "| " +:+ ChartName r +:+ " | " +:+ Environment r +:+ " | "
             +:+ labelOf (Status' r) +:+ " |" +:+ nl) ∧
  (∀ s, labelOf s = if decide (s = StatusChanges) then "Changed" else "No Changes") ∧
  (∀ r, Status' r = StatusError →
        tableRow r =
          "| " +:+ ChartName r +:+ " | " +:+ Environment r
               +:+ " | No Changes |" +:+ nl ∧
        detailSection r =
          "### " +:+ ChartName r +:+ "/" +:+ Environment r +:+ nl +:+
          "No changes detected." +:+ nl +:+ nl).
Proof.
  split; [apply formatPRComment_layout |].
  split; [apply length_fmap |].
  split; [apply tableRow_eq |].
  split; [by intros [] |].
  intros r Hr. split.
  - by rewrite tableRow_eq, Hr.
  - apply detailSection_unchanged. by rewrite Hr.
Qed.

(** C7: [PreferredDiff] is the semantic diff when there is one and the
    unified diff otherwise; the detail section of a changed pair shows
    that diff and nothing of the other one, and the section of any other
    pair shows no diff. *)
Theorem PreferredDiff_in_details r :
  (SemanticDiff r ≠ "" → PreferredDiff r = SemanticDiff r) ∧
  (SemanticDiff r = "" → PreferredDiff r = UnifiedDiff r) ∧
  (SemanticDiff r = "" → UnifiedDiff r = "" → PreferredDiff r = "") ∧
  (Status' r = StatusChanges →
     detailSection r =
     "### " +:+ ChartName r +:+ "/" +:+ Environment r +:+ nl +:+
     "<details><summary>View diff</summary>" +:+ nl +:+ nl +:+
     "```diff" +:+ nl +:+ PreferredDiff r +:+ nl +:+ "```" +:+ nl +:+
     "</details>" +:+ nl +:+ nl) ∧
  (Status' r ≠ StatusChanges →
     detailSection r =
     "### " +:+ ChartName r +:+ "/" +:+ Environment r +:+ nl +:+
     "No changes detected." +:+ nl +:+ nl) ∧
  (SemanticDiff r ≠ "" → detailSection r = detailSection (withoutUnifiedDiff r)) ∧
  (∀ results, app.formatPRComment results =
     prCommentHeader +:+ strcat (tableRow <$> results) +:+ nl +:+
     strcat (detailSection <$> results)).
Proof.
  assert (SemanticDiff r ≠ "" → PreferredDiff r = SemanticDiff r) as Hsem.
  { intros Hs. unfold PreferredDiff. by rewrite bool_decide_eq_true_2. }
  assert (SemanticDiff r = "" → PreferredDiff r = UnifiedDiff r) as Huni.
  { intros Hs. unfold PreferredDiff.
    by rewrite bool_decide_eq_false_2 by tauto. }
  repeat split; try done.
  - intros Hs Hu. by rewrite Huni, Hu.
  - apply detailSection_changed.
  - apply detailSection_unchanged.
  - intros Hs. unfold detailSection, app.prCommentDetail. simpl.
    by rewrite (bool_decide_eq_false_2 (SemanticDiff r = "")).
  - apply formatPRComment_layout.
Qed.

End Reports.

(** ** ExtractChartNames (claim C10) *)
Section ChartNames.
Implicit Types (f name rest : string) (files : list string).

Lemma HasPrefix_app s t : HasPrefix (t +:+ s) t = true.
Proof.
  induction t as [| c t IH]; [done |].
  rewrite str_app_cons. simpl. by rewrite Ascii.eqb_refl.
Qed.

Lemma HasPrefix_inv s t : HasPrefix s t = true → ∃ u, s = t +:+ u.
Proof.
  revert s. induction t as [| p t IH]; intros s H; [by exists s |].
  destruct s as [| c s]; [done |]. simpl in H.
  destruct (Ascii.eqb_spec c p) as [-> | Hne]; [| done].
  destruct (IH s H) as [u ->]. by exists u.
Qed.

Lemma SplitN_1 s sep : SplitN s sep 1 = [s].
Proof. by destruct s. Qed.

(** The first piece of a split in two at the first slash. *)
Lemma SplitN_2_head name rest :
  noSlash name → rest = "" ∨ (∃ rest', rest = String "/" rest') →
  ∃ pieces, SplitN (name +:+ rest) "/" 2 = name :: pieces.
Proof.
  intros Hname Hrest. induction name as [| c name IH].
  - rewrite str_app_nil_l.
    destruct Hrest as [-> | [rest' ->]]; simpl; rewrite ?SplitN_1; eauto.
  - destruct Hname as [Hc Hname]. destruct (IH Hname) as [pieces Hp].
    rewrite str_app_cons. simpl.
    destruct (Ascii.eqb_spec c "/") as [-> | _]; [done |].
    simpl in Hp. rewrite Hp. simpl. eauto.
Qed.

Lemma SplitN_2_inv s :
  ∃ name pieces, SplitN s "/" 2 = name :: pieces ∧ noSlash name ∧
    ∃ rest, s = name +:+ rest ∧ (rest = "" ∨ ∃ rest', rest = String "/" rest').
Proof.
  induction s as [| c s IH].
  - exists "", []. simpl. eauto 10.
  - simpl. destruct (Ascii.eqb_spec c "/") as [-> | Hc].
    + exists "", [s]. rewrite SplitN_1. simpl. eauto 10.
    + destruct IH as (name & pieces & Hs & Hname & rest & -> & Hrest).
      simpl in Hs. rewrite Hs. simpl.
      exists (String c name), pieces. repeat split; [done.. |].
      exists rest. by rewrite str_app_cons.
Qed.

Lemma SplitN_charts s :
  SplitN ("charts/" +:+ s) "/" 3 = "charts" :: SplitN s "/" 2.
Proof.
  change ("charts/" +:+ s) with
    (String "c" (String "h" (String "a" (String "r" (String "t"
       (String "s" (String "/" s))))))).
  destruct s as [| c s]; [done |]. simpl.
  destruct (Ascii.eqb c "/"); [done |].
  by destruct (SplitN s "/" 2).
Qed.

(** A path contributes [name] exactly when it is "charts/", then the
    non-empty slash-free [name], then nothing or a third segment. *)
Lemma chartNameOf_spec f name :
  chartNameOf f = Some name ↔ name ≠ "" ∧ underCharts f name.
Proof.
  unfold chartNameOf, underCharts. split.
  - destruct (HasPrefix f "charts/") eqn:Hpre; [| done]. simpl.
    apply HasPrefix_inv in Hpre as [s ->]. rewrite SplitN_charts.
    destruct (SplitN_2_inv s) as (n & pieces & -> & Hn & rest & -> & Hrest).
    simpl. case_bool_decide as Hnil; [done |]. intros [= <-]. eauto.
  - intros (Hne & rest & -> & Hname & Hrest).
    rewrite HasPrefix_app. cbv beta iota zeta delta [negb].
    rewrite SplitN_charts.
    destruct (SplitN_2_head name rest Hname Hrest) as [pieces ->]. simpl.
    by rewrite bool_decide_eq_false_2.
Qed.

Lemma chartNameOf_outside f : HasPrefix f "charts/" = false → chartNameOf f = None.
Proof. intros H. unfold chartNameOf. by rewrite H. Qed.

Lemma chartNameOf_empty_segment rest : chartNameOf ("charts//" +:+ rest) = None.
Proof. done. Qed.

Lemma ExtractChartNames_loop files :
  let st := fold_left ExtractChartNames_step files (∅, []) in
  st.2 = firstSeen (omap chartNameOf files) ∧ (∀ n, n ∈ st.1 ↔ n ∈ st.2).
Proof.
  induction files as [| f files IH] using rev_ind; simpl.
  - split; [done |]. intros n. by rewrite elem_of_empty, elem_of_nil.
  - rewrite fold_left_app, omap_app. simpl.
    destruct (fold_left ExtractChartNames_step files (∅, [])) as [seen names].
    simpl in IH. destruct IH as [-> Hseen]. unfold ExtractChartNames_step.
    destruct (chartNameOf f) as [name |]; simpl.
    + rewrite firstSeen_snoc.
      destruct (decide (name ∈ seen)) as [Hin | Hout].
      * rewrite bool_decide_eq_true_2 by done.
        rewrite Hseen, firstSeen_elem in Hin.
        by rewrite decide_True by done.
      * rewrite bool_decide_eq_false_2 by done.
        rewrite Hseen, firstSeen_elem in Hout.
        rewrite decide_False by done. split; [done |]. simpl.
        intros n. rewrite elem_of_union, elem_of_singleton, elem_of_app,
          list_elem_of_singleton, Hseen. tauto.
    + by rewrite app_nil_r.
Qed.

(** C10: the names come out in the order of their first occurrence, each
    once; a path contributes a name exactly when it starts with "charts/"
    and its second segment is not empty; "charts/foo" contributes "foo",
    "charts/" and "charts//..." contribute nothing. *)
Theorem ExtractChartNames_first_seen files :
  ExtractChartNames files = firstSeen (omap chartNameOf files) ∧
  NoDup (ExtractChartNames files) ∧
  (∀ name, name ∈ ExtractChartNames files
           ↔ ∃ f, f ∈ files ∧ chartNameOf f = Some name) ∧
  (∀ f, ExtractChartNames (files ++ [f]) =
     match chartNameOf f with
     | None => ExtractChartNames files
     | Some name =>
         if decide (name ∈ ExtractChartNames files) then ExtractChartNames files
         else ExtractChartNames files ++ [name]
     end) ∧
  (∀ f name, chartNameOf f = Some name ↔ name ≠ "" ∧ underCharts f name) ∧
  (∀ f, HasPrefix f "charts/" = false → chartNameOf f = None) ∧
  chartNameOf "charts/" = None ∧
  (∀ rest, chartNameOf ("charts//" +:+ rest) = None) ∧
  chartNameOf "charts/foo" = Some "foo".
Proof.
  assert (∀ l, ExtractChartNames l = firstSeen (omap chartNameOf l)) as Heq.
  { intros l. apply (ExtractChartNames_loop l). }
  split; [apply Heq |]. split; [rewrite Heq; apply firstSeen_NoDup |].
  split; [| split; [| split; [| split; [| split; [| split]]]]].
  - intros name. by rewrite Heq, firstSeen_elem, list_elem_of_omap.
  - intros f. rewrite !Heq, omap_app. simpl.
    destruct (chartNameOf f) as [name |]; simpl.
    + rewrite firstSeen_snoc.
      destruct (decide (name ∈ omap chartNameOf files)) as [Hin | Hout].
      * by rewrite decide_True by by apply firstSeen_elem.
      * by rewrite decide_False by by rewrite firstSeen_elem.
    + by rewrite app_nil_r.
  - apply chartNameOf_spec.
  - apply chartNameOf_outside.
  - done.
  - apply chartNameOf_empty_segment.
  - done.
Qed.

End ChartNames.

(** ** The dyff adapter: cleanDyffOutput and ComputeDiff (claim C8) *)
Section Cleaning.
Implicit Types (line output tmpDir s t : string) (lines cleaned : list string).

Lemma Contains_nil t : Contains "" t = HasPrefix "" t.
Proof. simpl. apply orb_false_r. Qed.

Lemma Contains_cons c s t :
  Contains (String c s) t = HasPrefix (String c s) t || Contains s t.
Proof. done. Qed.

Lemma Contains_empty s : Contains s "" = true.
Proof. by destruct s. Qed.

Lemma HasPrefix_cons c s p t :
  HasPrefix (String c s) (String p t) =
  if Ascii.eqb c p then HasPrefix s t else false.
Proof. done. Qed.

Lemma HasPrefix_LF_false u t :
  t ≠ "" → noLF t → HasPrefix (String LF u) t = false.
Proof.
  destruct t as [| p t]; [done |]. intros _ [Hp _].
  rewrite HasPrefix_cons.
  destruct (Ascii.eqb_spec LF p) as [Heq | _]; [by destruct Hp | done].
Qed.

(** A prefix without line feed ends before the first line feed. *)
Lemma HasPrefix_before_LF t : ∀ s u,
  noLF t → HasPrefix (s +:+ String LF u) t = true → HasPrefix s t = true.
Proof.
  induction t as [| p t IH]; intros s u Ht H; [done |].
  destruct s as [| c s].
  - rewrite str_app_nil_l, HasPrefix_LF_false in H; done.
  - destruct Ht as [Hp Ht].
    rewrite str_app_cons, HasPrefix_cons in H. rewrite HasPrefix_cons.
    destruct (Ascii.eqb c p); [by eapply IH | done].
Qed.

(** A non-empty text without line feed occurs on one side of a line feed. *)
Lemma Contains_across_LF t s u :
  t ≠ "" → noLF t → Contains (s +:+ String LF u) t = true →
  Contains s t = true ∨ Contains u t = true.
Proof.
  intros Hne Ht. induction s as [| c s IH].
  - rewrite str_app_nil_l, Contains_cons, HasPrefix_LF_false by done.
    by right.
  - rewrite str_app_cons, !Contains_cons. intros H.
    apply orb_true_iff in H as [H | H].
    + left. apply orb_true_iff. left.
      apply (HasPrefix_before_LF t (String c s) u Ht).
      by rewrite str_app_cons.
    + destruct (IH H) as [Hs | Hu]; [left | by right].
      apply orb_true_iff. by right.
Qed.

Lemma Contains_Join t lines :
  t ≠ "" → noLF t → Contains (Join lines nl) t = true →
  ∃ line, line ∈ lines ∧ Contains line t = true.
Proof.
  intros Hne Ht. induction lines as [| line lines IH]; simpl.
  - destruct t; [done | discriminate].
  - destruct lines as [| line' lines].
    + intros H. exists line. split; [left | done].
    + intros H. apply Contains_across_LF in H as [H | H]; [| | done..].
      * exists line. split; [left | done].
      * destruct (IH H) as (l & Hl & Hc). exists l. split; [by right | done].
Qed.

Lemma Split_nonempty s sep : Split s sep ≠ [].
Proof.
  destruct s as [| c s]; [done |]. simpl.
  destruct (Ascii.eqb c sep); [done |]. by destruct (Split s sep).
Qed.

Lemma Split_noLF s : Forall noLF (Split s LF).
Proof.
  induction s as [| c s IH]; simpl; [by repeat constructor |].
  destruct (Ascii.eqb_spec c LF) as [-> | Hne]; [by constructor |].
  destruct IH as [| line lines Hline Hlines]; simpl; by repeat constructor.
Qed.

Lemma Split_cons c s sep :
  Split (String c s) sep =
  if Ascii.eqb c sep then "" :: Split s sep else push_front c (Split s sep).
Proof. done. Qed.

Lemma Split_line_LF line s :
  noLF line → Split (line +:+ String LF s) LF = line :: Split s LF.
Proof.
  induction line as [| c line IH]; intros Hline.
  - by rewrite str_app_nil_l, Split_cons, Ascii.eqb_refl.
  - destruct Hline as [Hc Hline]. rewrite str_app_cons, Split_cons.
    destruct (Ascii.eqb_spec c LF) as [Heq | _]; [done |].
    by rewrite IH.
Qed.

Lemma Split_line line : noLF line → Split line LF = [line].
Proof.
  induction line as [| c line IH]; intros Hline; [done |].
  destruct Hline as [Hc Hline]. rewrite Split_cons.
  destruct (Ascii.eqb_spec c LF) as [Heq | _]; [done |].
  by rewrite IH.
Qed.

(** The first line of joined lines is the first of them. *)
Lemma firstLine_Join line lines :
  noLF line → firstLine (Join (line :: lines) nl) = line.
Proof.
  intros Hline. unfold firstLine. simpl. destruct lines as [| line' lines].
  - by rewrite Split_line.
  - unfold nl. rewrite str_app_cons, str_app_nil_l.
    by rewrite Split_line_LF.
Qed.

Lemma cleanDyffOutput_step_spec tmpDir cleaned line :
  dyffdiff.cleanDyffOutput_step tmpDir cleaned line =
  if decide (keptLine tmpDir line) then
    if decide (cleaned = [] ∧ blank line) then cleaned else cleaned ++ [line]
  else cleaned.
Proof.
  unfold dyffdiff.cleanDyffOutput_step.
  destruct (decide (keptLine tmpDir line)) as [[Hc Hb] | Hk].
  - rewrite Hc, Hb. unfold blank. destruct cleaned as [| l cleaned].
    + rewrite (bool_decide_eq_true_2 (length [] = 0)) by done.
      destruct (decide (TrimSpace line = "")) as [Ht | Ht].
      * by rewrite bool_decide_eq_true_2, decide_True.
      * by rewrite bool_decide_eq_false_2, decide_False by tauto.
    + rewrite (bool_decide_eq_false_2 (length (l :: cleaned) = 0)) by done.
      by rewrite decide_False by (by intros []).
  - unfold keptLine in Hk.
    destruct (Contains line tmpDir); [done |].
    destruct (dyffdiff.isBanner line); [done | tauto].
Qed.

Lemma cleanDyffOutput_loop tmpDir lines : ∀ cleaned,
  fold_left (dyffdiff.cleanDyffOutput_step tmpDir) lines cleaned =
  match cleaned with
  | [] => dropLeadingBlank (filter (keptLine tmpDir) lines)
  | _ :: _ => cleaned ++ filter (keptLine tmpDir) lines
  end.
Proof.
  induction lines as [| line lines IH]; intros cleaned.
  - simpl. destruct cleaned; [done | by rewrite app_nil_r].
  - change (fold_left ?f (line :: lines) cleaned)
      with (fold_left f lines (f cleaned line)).
    rewrite cleanDyffOutput_step_spec, filter_cons.
    destruct (decide (keptLine tmpDir line)) as [Hk | Hk]; [| apply IH].
    destruct cleaned as [| l cleaned].
    + simpl. destruct (decide (blank line)) as [Hb | Hb].
      * rewrite decide_True by done. apply IH.
      * rewrite decide_False by tauto. by rewrite IH.
    + rewrite decide_False by (by intros []).
      rewrite IH. destruct cleaned; simpl; by rewrite <- ?app_assoc.
Qed.

(** The closed form: the kept lines without the blank ones at the start,
    joined by line feeds. *)
Lemma cleanDyffOutput_closed output tmpDir :
  dyffdiff.cleanDyffOutput output tmpDir =
  Join (dropLeadingBlank (filter (keptLine tmpDir) (Split output LF))) nl.
Proof. unfold dyffdiff.cleanDyffOutput. by rewrite cleanDyffOutput_loop. Qed.

Lemma dropLeadingBlank_sub lines line :
  line ∈ dropLeadingBlank lines → line ∈ lines.
Proof.
  induction lines as [| l lines IH]; simpl; [done |].
  case_decide; [| done]. intros Hin. right. auto.
Qed.

Lemma dropLeadingBlank_head lines :
  match dropLeadingBlank lines with
  | [] => True
  | line :: _ => ¬ blank line
  end.
Proof.
  induction lines as [| l lines IH]; simpl; [done |].
  by case_decide.
Qed.

(** C8, with the temp directory's path non-empty and on one line where the
    whole text is concerned: every line of the cleaned text is a line of
    the output that neither contains the path nor is a banner line, the
    text is empty or starts with a line that is not blank, it does not
    contain the path, and a text that is white space only makes
    [ComputeDiff] return the empty string. *)
Theorem cleanDyffOutput_clean output tmpDir :
  let cleaned :=
    dropLeadingBlank (filter (keptLine tmpDir) (Split output LF)) in
  dyffdiff.cleanDyffOutput output tmpDir = Join cleaned nl ∧
  (∀ line, line ∈ cleaned →
     line ∈ Split output LF ∧ Contains line tmpDir = false ∧
     dyffdiff.isBanner line = false) ∧
  (dyffdiff.cleanDyffOutput output tmpDir = "" ∨
   ¬ blank (firstLine (dyffdiff.cleanDyffOutput output tmpDir))) ∧
  (tmpDir ≠ "" → noLF tmpDir →
     Contains (dyffdiff.cleanDyffOutput output tmpDir) tmpDir = false) ∧
  (∀ baseName headName run,
     dyffdiff.mkdirTemp run = Some tmpDir → dyffdiff.stdout run = output →
     TrimSpace (dyffdiff.cleanDyffOutput output tmpDir) = "" →
     dyffdiff.ComputeDiff baseName headName run = "").
Proof.
  intros cleaned.
  assert (∀ line, line ∈ cleaned →
            line ∈ Split output LF ∧ Contains line tmpDir = false ∧
            dyffdiff.isBanner line = false) as Hlines.
  { intros line Hin%dropLeadingBlank_sub.
    apply list_elem_of_filter in Hin as [[Hc Hb] Hin]. done. }
  split; [apply cleanDyffOutput_closed |]. split; [done |].
  rewrite cleanDyffOutput_closed. fold cleaned.
  split; [| split].
  - pose proof (dropLeadingBlank_head
                  (filter (keptLine tmpDir) (Split output LF))) as Hhead.
    fold cleaned in Hhead.
    destruct cleaned as [| line lines] eqn:Hcl; [by left | right].
    rewrite firstLine_Join; [done |].
    assert (line ∈ Split output LF) as Hin by (apply Hlines; left).
    pose proof (Split_noLF output) as Hall.
    rewrite Forall_forall in Hall. auto.
  - intros Hne Hlf.
    destruct (Contains (Join cleaned nl) tmpDir) eqn:Hc; [| done].
    apply Contains_Join in Hc as (line & Hin & Hc); [| done..].
    apply Hlines in Hin as (_ & Hfree & _). congruence.
  - intros baseName headName run Htmp Hout Hblank.
    unfold dyffdiff.ComputeDiff. rewrite Htmp, Hout.
    rewrite cleanDyffOutput_closed. fold cleaned.
    rewrite (bool_decide_eq_true_2 _ Hblank).
    destruct (dyffdiff.lookPath run); [| done].
    destruct (negb (dyffdiff.writeBase run)); [done |].
    destruct (negb (dyffdiff.writeHead run)); [done |].
    by destruct (_ && _).
Qed.

(** The theorem at a path on one line: the line of the output that names
    the temp file is dropped, the text that is left does not contain the
    path. *)
Lemma cleanDyffOutput_clean_witness :
  let output := "/tmp/chart-sentry-dyff-1/base.yaml" +:+ nl +:+ "spec.replicas" in
  let tmpDir := "/tmp/chart-sentry-dyff-1" in
  tmpDir ≠ "" ∧ noLF tmpDir ∧
  Contains (dyffdiff.cleanDyffOutput output tmpDir) tmpDir = false.
Proof.
  intros output tmpDir.
  assert (tmpDir ≠ "") as Hne by discriminate.
  assert (noLF tmpDir) as Hlf by (simpl; repeat split; discriminate).
  split; [exact Hne |]. split; [exact Hlf |].
  destruct (cleanDyffOutput_clean output tmpDir) as (_ & _ & _ & Hfree & _).
  exact (Hfree Hne Hlf).
Defined.

(** The claim C8 as the specification has it, for every path: false for a
    path with a line feed in it, which no single line contains. *)
Lemma cleanDyffOutput_path_across_lines :
  ¬ (∀ output tmpDir,
       Contains (dyffdiff.cleanDyffOutput output tmpDir) tmpDir = false).
Proof.
  intros H.
  specialize (H ("/tmp/a" +:+ nl +:+ "b/chart-sentry-dyff-1/base.yaml")
                ("/tmp/a" +:+ nl +:+ "b/chart-sentry-dyff-1")).
  vm_compute in H. discriminate.
Qed.

End Cleaning.

(** ** The functions on the repository's own test data *)
Section Examples.

(** The table of [TestIsNotFound] that goes with errors.go. *)
Example TestIsNotFound_typed :
  IsNotFound None = false ∧
  IsNotFound (Some (NewNotFoundError "resource" "ref")) = true ∧
  IsNotFound (Some (fmt_Errorf_w "failed to fetch: "
                      (NewNotFoundError "resource" "ref"))) = true ∧
  IsNotFound (Some (errors_New "file not found in archive")) = false ∧
  IsNotFound (Some (errors_New "permission denied")) = false ∧
  IsNotFound (Some (errors_New "")) = false.
Proof. by vm_compute. Qed.

(** The table of [TestIsNotFound] that goes with the message fallback. *)
Example TestIsNotFound_fallback :
  domain_fallback.IsNotFound None = false ∧
  domain_fallback.IsNotFound (Some (NewNotFoundError "resource" "ref")) = true ∧
  domain_fallback.IsNotFound
    (Some (fmt_Errorf_w "failed to fetch: " (NewNotFoundError "resource" "ref")))
    = true ∧
  domain_fallback.IsNotFound (Some (errors_New "file not found in archive")) = true ∧
  domain_fallback.IsNotFound (Some (errors_New "no such file or directory")) = true ∧
  domain_fallback.IsNotFound (Some (errors_New "HTTP 404 Not Found")) = true ∧
  domain_fallback.IsNotFound (Some (errors_New "permission denied")) = false ∧
  domain_fallback.IsNotFound (Some (errors_New "")) = false.
Proof. by vm_compute. Qed.

(** [TestNotFoundError]. *)
Example TestNotFoundError :
  Error (NewNotFoundError "charts/my-app" "main") =
  "charts/my-app not found at ref main".
Proof. done. Qed.

(** The "mixed statuses" case of [TestCountByStatus]. *)
Example TestCountByStatus_mixed :
  let result s := mkDiffResult "" "" "" "" s false "" "" "" in
  CountByStatus
    [result StatusSuccess; result StatusChanges; result StatusError;
     result StatusSuccess; result StatusChanges] = (2, 2, 1).
Proof. done. Qed.

Example FormatDiffLabel_example :
  FormatDiffLabel "my-app" "prod" "main" = "my-app/prod (main)".
Proof. done. Qed.

Example ExtractChartNames_example :
  ExtractChartNames
    ["charts/foo/values.yaml"; "README.md"; "charts/bar"; "charts/";
     "charts//x.yaml"; "charts/foo/templates/deployment.yaml"; "docs/charts/baz"]
  = ["foo"; "bar"].
Proof. by vm_compute. Qed.

Example GroupByChart_example :
  let result chart env := mkDiffResult chart env "main" "feat" StatusSuccess
                            false "" "" "No changes detected." in
  GroupByChart [result "a" "prod"; result "b" "prod"; result "a" "staging"] =
  Some [[result "a" "prod"; result "a" "staging"]; [result "b" "prod"]].
Proof. by vm_compute. Qed.

(** [strings.TrimSpace] on ASCII white space and on a no-break space
    (U+00A0) in front and a line separator (U+2028) behind. *)
Example TrimSpace_example :
  TrimSpace (String "009" " a b " +:+ nl) = "a b" ∧
  TrimSpace (String "194" (String "160" "x y ")
               +:+ String "226" (String "128" (String "168" ""))) = "x y" ∧
  TrimSpace (String "009" (String "013" " ")) = "".
Proof. by vm_compute. Qed.

(** What dyff prints for one changed value, and what is left of it. *)
Example cleanDyffOutput_example :
  dyffdiff.cleanDyffOutput
"     _        __  __
   _| |_   _ / _|/ _|  between /tmp/chart-sentry-dyff-1/base.yaml
 / _' | | | | |_| |_       and /tmp/chart-sentry-dyff-1/head.yaml
| (_| | |_| |  _|  _|
 \__,_|\__, |_| |_|   returned one difference
        |___/

spec.replicas  (apps/v1/Deployment/my-app)
  ± value change
    - 3
    + 5

" "/tmp/chart-sentry-dyff-1" =
"spec.replicas  (apps/v1/Deployment/my-app)
  ± value change
    - 3
    + 5

".
Proof. by vm_compute. Qed.

(** [ComputeDiff] on that run of dyff, and without dyff on the PATH. *)
Example ComputeDiff_example :
  dyffdiff.ComputeDiff "my-app/prod (main)" "my-app/prod (feat)"
    (dyffdiff.mkDyffRun (Some "/usr/bin/dyff") (Some "/tmp/chart-sentry-dyff-1")
       true true
"/tmp/chart-sentry-dyff-1/base.yaml

spec.replicas
    - 3
    + 5

" "") =
"--- my-app/prod (main)
+++ my-app/prod (feat)

spec.replicas
    - 3
    + 5" ∧
  dyffdiff.ComputeDiff "my-app/prod (main)" "my-app/prod (feat)"
    (dyffdiff.mkDyffRun None None false false "" "") = "".
Proof. by vm_compute. Qed.

(** The check-run document of a chart with one unchanged and one failed
    environment: the conclusion is "success". *)
Example formatCheckRunMarkdown_example :
  app.formatCheckRunMarkdown
    [app.runEnvironment "my-app" "prod" "main" "feat" (app.Diffed "" "");
     app.runEnvironment "my-app" "staging" "main" "feat"
       (app.RenderFailure (errors_New "template error"))] =
"# chart-sentry: my-app

**Status:** completed
**Conclusion:** success

## Helm diff — my-app

### Summary
Analyzed 2 environment(s): 0 changed, 2 unchanged

### Output
<details><summary>prod — No Changes</summary>

No changes detected.

</details>

<details><summary>staging — No Changes</summary>

No changes detected.

</details>
".
Proof. by vm_compute. Qed.

(** The summary document of the same two results and a changed one. *)
Example formatPRComment_example :
  app.formatPRComment
    [app.TestIntegration_FullDiffFlow_result "prod" "main" "feat"
       "spec.replicas" "-replicas: 3";
     app.runEnvironment "my-app" "staging" "main" "feat"
       (app.RenderFailure (errors_New "template error"))] =
"## Chart-Sentry Diff Report

| Chart | Environment | Status |
|-------|-------------|--------|
| my-app | prod | Changed |
| my-app | staging | No Changes |

### my-app/prod
<details><summary>View diff</summary>

```diff
spec.replicas
```
</details>

### my-app/staging
No changes detected.

".
Proof. by vm_compute. Qed.

End Examples.

(** ** More on GroupByChart and CountByStatus *)
Section GroupingLaws.
Implicit Types (results : list DiffResult) (names : list string).

Lemma firstSeen_app names1 names2 :
  firstSeen (names1 ++ names2) =
  firstSeen names1 ++ filter (λ n, n ∉ names1) (firstSeen names2).
Proof.
  induction names2 as [| n names2 IH] using rev_ind.
  - simpl. by rewrite !app_nil_r.
  - rewrite app_assoc, !firstSeen_snoc, IH.
    destruct (decide (n ∈ names2)) as [Hin2 | Hout2].
    + by rewrite decide_True by (rewrite elem_of_app; tauto).
    + rewrite filter_app, filter_cons, filter_nil.
      destruct (decide (n ∈ names1)) as [Hin1 | Hout1].
      * rewrite decide_True by (rewrite elem_of_app; tauto).
        rewrite decide_False by tauto. by rewrite app_nil_r.
      * rewrite decide_False by (rewrite elem_of_app; tauto).
        rewrite decide_True by done. by rewrite app_assoc.
Qed.

Lemma firstSeen_same names n :
  names ≠ [] → (∀ m, m ∈ names → m = n) → firstSeen names = [n].
Proof.
  induction names as [| m names IH]; [done |]. intros _ Hall.
  assert (m = n) as -> by (apply Hall; left). simpl.
  destruct names as [| m' names]; [done |].
  rewrite IH; [| done | intros m Hm; apply Hall; by right].
  by rewrite filter_cons, decide_False, filter_nil by tauto.
Qed.

Lemma firstSeen_NoDup_id names : NoDup names → firstSeen names = names.
Proof.
  induction 1 as [| n names Hn Hnd IH]; [done |]. simpl. rewrite IH.
  f_equal. clear IH Hnd. induction names as [| m names IH]; [done |].
  rewrite not_elem_of_cons in Hn. destruct Hn as [Hne Hn].
  rewrite filter_cons, decide_True by done. f_equal. auto.
Qed.

Lemma ofChart_names n results : ∀ r, r ∈ ofChart n results → ChartName r = n.
Proof. intros r [Hr _]%list_elem_of_filter. done. Qed.

Lemma ofChart_all n results :
  (∀ r, r ∈ results → ChartName r = n) → ofChart n results = results.
Proof.
  intros Hall. unfold ofChart. induction results as [| r results IH]; [done |].
  rewrite filter_cons, decide_True by (apply Hall; left).
  f_equal. apply IH. intros r' Hr'. apply Hall. by right.
Qed.

(** The chart names of the flattened groups, read in order, are first seen
    in the order of the groups. *)
Lemma firstSeen_concat_groups results names :
  NoDup names → (∀ n, n ∈ names → ofChart n results ≠ []) →
  firstSeen (ChartName <$> concat ((λ n, ofChart n results) <$> names)) = names.
Proof.
  induction 1 as [| n names Hn Hnd IH]; intros Hne; [done |].
  rewrite fmap_cons, concat_cons, fmap_app, firstSeen_app.
  rewrite (firstSeen_same _ n).
  - rewrite IH by (intros m Hm; apply Hne; by right).
    simpl. f_equal. clear IH Hnd Hne.
    induction names as [| m names IH]; [done |].
    rewrite not_elem_of_cons in Hn. destruct Hn as [Hne Hn].
    rewrite filter_cons, decide_True; [f_equal; auto |].
    intros (r & -> & Hr)%list_elem_of_fmap.
    apply ofChart_names in Hr. congruence.
  - intros Hnil. apply fmap_nil_inv in Hnil. by apply (Hne n); [left |].
  - intros m (r & -> & Hr)%list_elem_of_fmap. by apply ofChart_names in Hr.
Qed.

Lemma groupsOf_concat results :
  groupsOf (concat (groupsOf results)) = groupsOf results.
Proof.
  unfold groupsOf at 1 3.
  assert (firstSeen (ChartName <$> concat (groupsOf results)) =
          firstSeen (ChartName <$> results)) as ->.
  { unfold groupsOf. apply firstSeen_concat_groups; [apply firstSeen_NoDup |].
    intros n Hn. apply ofChart_present. by apply firstSeen_elem. }
  apply list_fmap_ext. intros i n Hn. unfold groupsOf.
  rewrite ofChart_concat by apply firstSeen_NoDup.
  by rewrite decide_True by by eapply list_elem_of_lookup_2.
Qed.

(** X1: Grouping again what grouping has produced changes nothing: the
    flattened groups fall into the same groups. *)
Theorem GroupByChart_regroup results :
  ∃ groups, GroupByChart results = Some groups ∧
            GroupByChart (concat groups) = Some groups.
Proof.
  exists (groupsOf results). split; [apply GroupByChart_groupsOf |].
  by rewrite GroupByChart_groupsOf, groupsOf_concat.
Qed.

(** X2: Two results of the input are in one group exactly when they have the
    same chart name: a group holds one chart only, and no two groups hold
    the same chart. *)
Theorem GroupByChart_partition results :
  ∃ groups, GroupByChart results = Some groups ∧
    (∀ g r1 r2, g ∈ groups → r1 ∈ g → r2 ∈ g → ChartName r1 = ChartName r2) ∧
    (∀ i j g1 g2 r1 r2,
       groups !! i = Some g1 → groups !! j = Some g2 → r1 ∈ g1 → r2 ∈ g2 →
       ChartName r1 = ChartName r2 → i = j) ∧
    length groups = length (firstSeen (ChartName <$> results)) ∧
    (∀ r, r ∈ results → ∃ g, g ∈ groups ∧ r ∈ g).
Proof.
  exists (groupsOf results). split; [apply GroupByChart_groupsOf |].
  unfold groupsOf. repeat split.
  - intros g r1 r2 (n & -> & Hn)%list_elem_of_fmap H1 H2.
    apply ofChart_names in H1, H2. congruence.
  - intros i j g1 g2 r1 r2 Hi Hj H1 H2 Heq.
    rewrite list_lookup_fmap in Hi, Hj.
    destruct (firstSeen (ChartName <$> results) !! i) as [n |] eqn:Hni; [| done].
    destruct (firstSeen (ChartName <$> results) !! j) as [m |] eqn:Hnj; [| done].
    simpl in Hi, Hj. injection Hi as <-. injection Hj as <-.
    apply ofChart_names in H1, H2.
    eapply NoDup_lookup; [apply firstSeen_NoDup | done |]. congruence.
  - by rewrite length_fmap.
  - intros r Hr. exists (ofChart (ChartName r) results). split.
    + apply list_elem_of_fmap. exists (ChartName r). split; [done |].
      apply firstSeen_elem. by apply list_elem_of_fmap_2.
    + by apply list_elem_of_filter.
Qed.

(** X3: The results of a single chart make one group, the input itself. *)
Theorem GroupByChart_single_chart results n :
  results ≠ [] → (∀ r, r ∈ results → ChartName r = n) →
  GroupByChart results = Some [results].
Proof.
  intros Hne Hall. rewrite GroupByChart_groupsOf. unfold groupsOf.
  rewrite (firstSeen_same _ n).
  - simpl. by rewrite ofChart_all.
  - intros Hnil. by apply fmap_nil_inv in Hnil.
  - intros m (r & -> & Hr)%list_elem_of_fmap. auto.
Qed.

Lemma GroupByChart_single_chart_witness :
  let r env := mkDiffResult "my-app" env "main" "feat" StatusSuccess false "" ""
                 "No changes detected." in
  [r "prod"; r "staging"] ≠ [] ∧
  (∀ r', r' ∈ [r "prod"; r "staging"] → ChartName r' = "my-app") ∧
  GroupByChart [r "prod"; r "staging"] = Some [[r "prod"; r "staging"]].
Proof.
  intros r.
  assert (∀ r', r' ∈ [r "prod"; r "staging"] → ChartName r' = "my-app") as Hall.
  { intros r' Hr'. rewrite !elem_of_cons, elem_of_nil in Hr'.
    by destruct Hr' as [-> | [-> | []]]. }
  assert ([r "prod"; r "staging"] ≠ []) as Hne by discriminate.
  split; [exact Hne |]. split; [exact Hall |].
  exact (GroupByChart_single_chart _ "my-app" Hne Hall).
Defined.

Lemma countStatus_app s results1 results2 :
  countStatus s (results1 ++ results2) =
  countStatus s results1 + countStatus s results2.
Proof. unfold countStatus. by rewrite filter_app, length_app. Qed.

Lemma countStatus_Permutation s results1 results2 :
  results1 ≡ₚ results2 → countStatus s results1 = countStatus s results2.
Proof. intros Hp. unfold countStatus. by rewrite Hp. Qed.

(** X4: Counting is additive over concatenation and blind to the order of the
    results; so counting the flattened groups is counting the input. *)
Theorem CountByStatus_app_Permutation results1 results2 :
  CountByStatus (results1 ++ results2) =
    addCounts (CountByStatus results1) (CountByStatus results2) ∧
  (results1 ≡ₚ results2 → CountByStatus results1 = CountByStatus results2) ∧
  (∀ groups, GroupByChart results1 = Some groups →
             CountByStatus (concat groups) = CountByStatus results1).
Proof.
  split; [| split].
  - rewrite !CountByStatus_counts, !countStatus_app. done.
  - intros Hp. rewrite !CountByStatus_counts.
    by rewrite !(countStatus_Permutation _ _ _ Hp).
  - intros groups. rewrite GroupByChart_groupsOf. intros [= <-].
    assert (concat (groupsOf results1) ≡ₚ results1) as Hp.
    { apply concat_ofChart_Permutation; [apply firstSeen_NoDup |].
      intros r Hr. apply firstSeen_elem. by apply list_elem_of_fmap_2. }
    rewrite !CountByStatus_counts.
    by rewrite !(countStatus_Permutation _ _ _ Hp).
Qed.

Lemma CountByStatus_app_Permutation_witness :
  let r s := mkDiffResult "my-app" "prod" "main" "feat" s false "" "" "" in
  [r StatusSuccess; r StatusError] ≡ₚ [r StatusError; r StatusSuccess] ∧
  CountByStatus [r StatusSuccess; r StatusError] =
  CountByStatus [r StatusError; r StatusSuccess].
Proof.
  intros r.
  assert ([r StatusSuccess; r StatusError] ≡ₚ [r StatusError; r StatusSuccess])
    as Hp by apply Permutation_swap.
  split; [exact Hp |].
  exact (proj1 (proj2 (CountByStatus_app_Permutation _ _)) Hp).
Defined.

End GroupingLaws.

(** ** More on PreferredDiff, the labels and the errors *)
Section DomainLaws.
Implicit Types (r : DiffResult) (e : error) (s t : string).

(** X5: [PreferredDiff] is empty exactly when there is no diff at all, and for a
    result built from two diff outputs that is exactly status Success. *)
Theorem PreferredDiff_empty_iff_Success chart envName baseRef headRef sem uni :
  let r := app.envResult chart envName baseRef headRef sem uni in
  (∀ r', PreferredDiff r' = "" ↔ SemanticDiff r' = "" ∧ UnifiedDiff r' = "") ∧
  (PreferredDiff r = "" ↔ Status' r = StatusSuccess) ∧
  (PreferredDiff r ≠ "" ↔ Status' r = StatusChanges).
Proof.
  assert (∀ r', PreferredDiff r' = "" ↔ SemanticDiff r' = "" ∧ UnifiedDiff r' = "")
    as Hpref.
  { intros r'. unfold PreferredDiff. case_bool_decide as Hs.
    - split; [done | tauto].
    - rewrite Hs. tauto. }
  intros r. split; [exact Hpref |]. rewrite Hpref. subst r.
  destruct (decide (sem = "")) as [-> | Hs];
    [destruct (decide (uni = "")) as [-> | Hu] |].
  - rewrite envResult_empty. simpl. split; split; try done. tauto.
  - rewrite envResult_nonempty by auto. simpl. split; split; try done; tauto.
  - rewrite envResult_nonempty by auto. simpl. split; split; try done; tauto.
Qed.

Lemma str_app_absent_inv (c : ascii) (absent : string → Prop) :
  (∀ a s, absent (String a s) → a ≠ c ∧ absent s) →
  ∀ s1 s2 t1 t2, absent s1 → absent s2 →
    s1 +:+ String c t1 = s2 +:+ String c t2 → s1 = s2 ∧ t1 = t2.
Proof.
  intros Habs. induction s1 as [| a s1 IH]; intros [| b s2] t1 t2 H1 H2 Heq.
  - rewrite !str_app_nil_l in Heq. by injection Heq.
  - rewrite str_app_nil_l, str_app_cons in Heq. injection Heq as <- _.
    by destruct (Habs _ _ H2).
  - rewrite str_app_nil_l, str_app_cons in Heq. injection Heq as -> _.
    by destruct (Habs _ _ H1).
  - rewrite !str_app_cons in Heq. injection Heq as -> Heq.
    destruct (Habs _ _ H1) as [_ H1'], (Habs _ _ H2) as [_ H2'].
    destruct (IH s2 t1 t2 H1' H2' Heq) as [-> ->]. done.
Qed.

Lemma str_app_inv_last s1 s2 c : s1 +:+ String c "" = s2 +:+ String c "" → s1 = s2.
Proof.
  revert s2. induction s1 as [| a s1 IH]; intros [| b s2] Heq.
  - done.
  - rewrite str_app_nil_l, str_app_cons in Heq. injection Heq as _ Heq.
    by destruct s2.
  - rewrite str_app_nil_l, str_app_cons in Heq. injection Heq as _ Heq.
    by destruct s1.
  - rewrite !str_app_cons in Heq. injection Heq as -> Heq.
    by rewrite (IH s2 Heq).
Qed.

(** X6: A label names its chart, environment and ref without ambiguity when
    the chart names have no slash and the environment names no space. *)
Theorem FormatDiffLabel_inj chart1 env1 ref1 chart2 env2 ref2 :
  noSlash chart1 → noSlash chart2 → noSpace env1 → noSpace env2 →
  FormatDiffLabel chart1 env1 ref1 = FormatDiffLabel chart2 env2 ref2 →
  chart1 = chart2 ∧ env1 = env2 ∧ ref1 = ref2.
Proof.
  intros Hc1 Hc2 He1 He2. unfold FormatDiffLabel.
  change ("/" +:+ ?x) with (String "/"%char x).
  intros Heq.
  apply (str_app_absent_inv "/" noSlash) in Heq as [-> Heq]; [| by intros ? ? [] | done..].
  change (" (" +:+ ?x) with (String " "%char (String "("%char x)) in Heq.
  apply (str_app_absent_inv " " noSpace) in Heq as [-> Heq]; [| by intros ? ? [] | done..].
  injection Heq as Heq. apply str_app_inv_last in Heq. done.
Qed.

Lemma FormatDiffLabel_inj_witness :
  noSlash "my-app" ∧ noSpace "prod" ∧
  (FormatDiffLabel "my-app" "prod" "main" = FormatDiffLabel "my-app" "prod" "main" →
   "my-app" = "my-app" ∧ "prod" = "prod" ∧ "main" = "main").
Proof.
  assert (noSlash "my-app") as Hc by (simpl; repeat split; discriminate).
  assert (noSpace "prod") as He by (simpl; repeat split; discriminate).
  split; [exact Hc |]. split; [exact He |].
  exact (FormatDiffLabel_inj "my-app" "prod" "main" "my-app" "prod" "main"
           Hc Hc He He).
Defined.

(** Without that, two different pairs can share a label. *)
Lemma FormatDiffLabel_ambiguous :
  FormatDiffLabel "a/b" "c" "main" = FormatDiffLabel "a" "b/c" "main".
Proof. done. Qed.

Lemma Error_wrapAll prefixes e :
  Error (wrapAll prefixes e) = strcat prefixes +:+ Error e.
Proof.
  induction prefixes as [| p prefixes IH]; [done |].
  simpl. by rewrite IH, str_app_assoc.
Qed.

(** X7: However often an error is wrapped, [IsNotFound] answers what it answers
    for the innermost error, and the message is the prefixes followed by
    the inner message; a wrapped [NotFoundError] is always found. *)
Theorem IsNotFound_wrapAll prefixes e :
  IsNotFound (Some (wrapAll prefixes e)) = IsNotFound (Some e) ∧
  Error (wrapAll prefixes e) = strcat prefixes +:+ Error e ∧
  (∀ resource ref,
     IsNotFound (Some (wrapAll prefixes (NewNotFoundError resource ref))) = true).
Proof.
  assert (∀ e', IsNotFound (Some (wrapAll prefixes e')) = IsNotFound (Some e'))
    as Hwrap.
  { intros e'. induction prefixes as [| p prefixes IH]; [done | exact IH]. }
  split; [apply Hwrap |]. split; [apply Error_wrapAll |].
  intros resource ref. by rewrite Hwrap.
Qed.

End DomainLaws.

(** ** The message fallback of IsNotFound *)
Section FallbackLaws.
Implicit Types (e : error) (s t sub : string) (subs : list string).

Lemma str_length_app s t :
  String.length (s +:+ t) = String.length s + String.length t.
Proof.
  induction s as [| c s IH]; [done |].
  rewrite str_app_cons. simpl. by rewrite IH.
Qed.

Lemma HasPrefix_length s t :
  HasPrefix s t = true → String.length t ≤ String.length s.
Proof.
  intros [u ->]%HasPrefix_inv. rewrite str_length_app. lia.
Qed.

Lemma HasPrefix_Contains s t : HasPrefix s t = true → Contains s t = true.
Proof. intros H. destruct s; simpl; by rewrite H. Qed.

Lemma Contains_substringOf s t : Contains s t = true ↔ substringOf t s.
Proof.
  unfold substringOf. split.
  - induction s as [| c s IH].
    + rewrite Contains_nil. intros [u ->]%HasPrefix_inv. by exists "", u.
    + rewrite Contains_cons. intros [H | H]%orb_true_iff.
      * apply HasPrefix_inv in H as [u ->]. by exists "", u.
      * destruct (IH H) as (before & after & ->).
        by exists (String c before), after.
  - intros (before & after & ->). induction before as [| c before IH].
    + rewrite str_app_nil_l. apply HasPrefix_Contains, HasPrefix_app.
    + rewrite str_app_cons, Contains_cons, IH. apply orb_true_r.
Qed.

Lemma Contains_length s t :
  Contains s t = true → String.length t ≤ String.length s.
Proof.
  intros (before & after & ->)%Contains_substringOf.
  rewrite !str_length_app. lia.
Qed.

Lemma eqb_substring_prefix t : ∀ s,
  String.eqb (String.substring 0 (String.length t) s) t = HasPrefix s t.
Proof.
  induction t as [| p t IH]; intros s.
  - by destruct s.
  - destruct s as [| c s]; [done |]. simpl. rewrite IH.
    by destruct (Ascii.eqb c p).
Qed.

Lemma existsb_seq_S (P : nat → bool) k :
  existsb P (seq 1 k) = existsb (λ i, P (S i)) (seq 0 k).
Proof.
  rewrite <- seq_shift. induction (seq 0 k) as [| i l IH]; [done |].
  simpl. by rewrite IH.
Qed.

(** The hand-written scan of [containsAny] for one text is [strings.Contains]. *)
Lemma containsAny_scan s sub :
  Nat.leb (String.length sub) (String.length s) &&
  existsb
    (λ i, String.eqb (String.substring i (String.length sub) s) sub)
    (seq 0 (String.length s - String.length sub + 1))
  = Contains s sub.
Proof.
  induction s as [| c s IH].
  - by destruct sub.
  - rewrite Contains_cons.
    change (String.length (String c s)) with (S (String.length s)).
    destruct (le_lt_dec (String.length sub) (String.length s)) as [Hle | Hgt].
    + rewrite (leb_correct _ _ Hle), andb_true_l in IH.
      rewrite leb_correct, andb_true_l by lia.
      replace (S (String.length s) - String.length sub + 1)
        with (S (String.length s - String.length sub + 1)) by lia.
      change (seq 0 (S ?k)) with (0 :: seq 1 k).
      change (existsb ?P (0 :: ?l)) with (P 0 || existsb P l). cbv beta.
      rewrite (eqb_substring_prefix sub (String c s)), existsb_seq_S.
      f_equal. exact IH.
    + rewrite (leb_correct_conv _ _ Hgt), andb_false_l in IH.
      rewrite <- IH, orb_false_r.
      destruct (decide (String.length sub = S (String.length s))) as [Heq | Hne].
      * rewrite leb_correct, andb_true_l by lia.
        replace (S (String.length s) - String.length sub + 1) with 1 by lia.
        change (seq 0 1) with [0].
        change (existsb ?P [0]) with (P 0 || false). cbv beta.
        rewrite orb_false_r.
        apply (eqb_substring_prefix sub (String c s)).
      * rewrite leb_correct_conv, andb_false_l by lia.
        destruct (HasPrefix (String c s) sub) eqn:Hp; [| done].
        apply HasPrefix_length in Hp. simpl in Hp. lia.
Qed.

Lemma containsAny_existsb s subs :
  domain_fallback.containsAny s subs = existsb (Contains s) subs.
Proof.
  induction subs as [| sub subs IH]; [done |].
  simpl. by rewrite containsAny_scan, IH.
Qed.

(** X8: [containsAny] answers true exactly when one of the texts occurs in the
    string; the empty text occurs in every string, no text in an empty list. *)
Theorem containsAny_spec s subs :
  (domain_fallback.containsAny s subs = true
     ↔ ∃ sub, sub ∈ subs ∧ substringOf sub s) ∧
  domain_fallback.containsAny s subs = existsb (Contains s) subs ∧
  domain_fallback.containsAny s ("" :: subs) = true ∧
  domain_fallback.containsAny s [] = false.
Proof.
  split; [| split; [apply containsAny_existsb | split; [| done]]].
  - rewrite containsAny_existsb, existsb_exists. split.
    + intros (sub & Hin & Hc). exists sub.
      by rewrite list_elem_of_In, <- Contains_substringOf.
    + intros (sub & Hin & Hc). exists sub.
      by rewrite <- list_elem_of_In, Contains_substringOf.
  - rewrite containsAny_existsb. simpl. by rewrite Contains_empty.
Qed.

Lemma Contains_app_l s t before :
  Contains s t = true → Contains (before +:+ s) t = true.
Proof.
  intros H. induction before as [| c before IH]; [done |].
  rewrite str_app_cons, Contains_cons, IH. apply orb_true_r.
Qed.

Lemma containsAny_app_l s subs before :
  domain_fallback.containsAny s subs = true →
  domain_fallback.containsAny (before +:+ s) subs = true.
Proof.
  rewrite !containsAny_existsb, !existsb_exists.
  intros (sub & Hin & Hc). exists sub. split; [done |]. by apply Contains_app_l.
Qed.

Lemma NotFoundError_mentions e :
  wrapsNotFoundError e →
  domain_fallback.containsAny (Error e) fallbackTexts = true.
Proof.
  induction 1 as [resource ref | prefix inner Hinner IH].
  - rewrite containsAny_existsb. apply existsb_exists.
    exists "not found". split; [by left |].
    change (Error (NotFoundError resource ref))
      with (resource +:+ " not found at ref " +:+ ref).
    by apply Contains_app_l.
  - simpl Error. by apply containsAny_app_l.
Qed.

(** X9: In the revision with the fallback the test on the message decides
    alone: the message of a [NotFoundError], however wrapped, contains
    "not found", so [errors.As] adds nothing; and what errors.go finds,
    the fallback finds. *)
Theorem IsNotFound_fallback_message e :
  domain_fallback.IsNotFound (Some e) =
    domain_fallback.containsAny (Error e) fallbackTexts ∧
  (IsNotFound (Some e) = true → domain_fallback.IsNotFound (Some e) = true).
Proof.
  assert (domain_fallback.IsNotFound (Some e) =
          domain_fallback.containsAny (Error e) fallbackTexts) as Hmsg.
  { rewrite IsNotFound_fallback_spec. fold fallbackTexts.
    destruct (IsNotFound (Some e)) eqn:Hfound; [| done].
    apply IsNotFound_Some in Hfound. by rewrite NotFoundError_mentions. }
  split; [exact Hmsg |]. intros Hfound. rewrite Hmsg.
  apply NotFoundError_mentions. by apply IsNotFound_Some.
Qed.

(** X10: Wrapping keeps an error NotFound for the fallback, and a prefix that
    contains one of the three texts makes every error NotFound. *)
Theorem IsNotFound_fallback_wrap prefix e :
  (domain_fallback.IsNotFound (Some e) = true →
   domain_fallback.IsNotFound (Some (fmt_Errorf_w prefix e)) = true) ∧
  (domain_fallback.containsAny prefix fallbackTexts = true →
   domain_fallback.IsNotFound (Some (fmt_Errorf_w prefix e)) = true).
Proof.
  split.
  - rewrite !(proj1 (IsNotFound_fallback_message _)). simpl Error.
    apply containsAny_app_l.
  - rewrite (proj1 (IsNotFound_fallback_message _)). simpl Error.
    rewrite !containsAny_existsb, !existsb_exists.
    intros (sub & Hin & Hc). exists sub. split; [done |].
    apply Contains_substringOf in Hc as (before & after & ->).
    apply Contains_substringOf. exists before, (after +:+ Error e).
    by rewrite !str_app_assoc.
Qed.

Lemma IsNotFound_fallback_wrap_witness :
  domain_fallback.IsNotFound (Some (errors_New "HTTP 404 Not Found")) = true ∧
  domain_fallback.IsNotFound
    (Some (fmt_Errorf_w "getting archive link: " (errors_New "HTTP 404 Not Found")))
    = true.
Proof.
  assert (domain_fallback.IsNotFound (Some (errors_New "HTTP 404 Not Found")) = true)
    as H by (by vm_compute).
  split; [exact H |].
  exact (proj1 (IsNotFound_fallback_wrap "getting archive link: " _) H).
Defined.

End FallbackLaws.

(** ** More on ExtractChartNames *)
Section ChartNameLaws.
Implicit Types (f name rest : string) (files names : list string).

Lemma ExtractChartNames_firstSeen files :
  ExtractChartNames files = firstSeen (omap chartNameOf files).
Proof. apply (ExtractChartNames_loop files). Qed.

Lemma filter_not_elem_self names : filter (λ n, n ∉ names) names = [].
Proof.
  assert (∀ l, (∀ n, n ∈ l → n ∈ names) → filter (λ n, n ∉ names) l = []) as H.
  { induction l as [| n l IH]; intros Hsub; [done |].
    rewrite filter_cons, decide_False by (intros Hn; apply Hn, Hsub; left).
    apply IH. intros m Hm. apply Hsub. by right. }
  by apply H.
Qed.

(** X11: The names of two lists of paths, one after the other: the names of the
    first, then those of the second that the first has not; a list repeated
    adds nothing. *)
Theorem ExtractChartNames_app files1 files2 :
  ExtractChartNames (files1 ++ files2) =
    ExtractChartNames files1 ++
    filter (λ n, n ∉ ExtractChartNames files1) (ExtractChartNames files2) ∧
  ExtractChartNames (files1 ++ files1) = ExtractChartNames files1.
Proof.
  assert (∀ l1 l2, ExtractChartNames (l1 ++ l2) =
            ExtractChartNames l1 ++
            filter (λ n, n ∉ ExtractChartNames l1) (ExtractChartNames l2)) as Happ.
  { intros l1 l2. rewrite !ExtractChartNames_firstSeen, omap_app, firstSeen_app.
    f_equal. apply list_filter_iff. intros n. by rewrite firstSeen_elem. }
  split; [apply Happ |].
  by rewrite Happ, filter_not_elem_self, app_nil_r.
Qed.


(** X13: Paths built from distinct chart names give the names back, in order. *)
Theorem ExtractChartNames_of_paths names rest :
  NoDup names → (∀ n, n ∈ names → n ≠ "" ∧ noSlash n) →
  rest = "" ∨ (∃ rest', rest = String "/" rest') →
  ExtractChartNames ((λ n, "charts/" +:+ n +:+ rest) <$> names) = names.
Proof.
  intros Hnd Hvalid Hrest. rewrite ExtractChartNames_firstSeen.
  assert (omap chartNameOf ((λ n, "charts/" +:+ n +:+ rest) <$> names) = names)
    as ->; [| by apply firstSeen_NoDup_id].
  clear Hnd. induction names as [| n names IH]; [done |].
  rewrite fmap_cons.
  assert (chartNameOf ("charts/" +:+ n +:+ rest) = Some n) as Hn.
  { apply chartNameOf_spec. destruct (Hvalid n) as [Hne Hslash]; [left |].
    split; [done |]. by exists rest. }
  change (omap ?g (?x :: ?l)) with
    (match g x with Some y => y :: omap g l | None => omap g l end).
  rewrite Hn, IH; [done |]. intros m Hm. apply Hvalid. by right.
Qed.

Lemma ExtractChartNames_of_paths_witness :
  NoDup ["my-app"; "api"] ∧
  ExtractChartNames ["charts/my-app/Chart.yaml"; "charts/api/Chart.yaml"] =
  ["my-app"; "api"].
Proof.
  assert (NoDup ["my-app"; "api"]) as Hnd.
  { repeat constructor; rewrite ?elem_of_cons, ?elem_of_nil; intros H;
      repeat destruct H as [H | H]; done. }
  split; [exact Hnd |].
  apply (ExtractChartNames_of_paths ["my-app"; "api"] "/Chart.yaml" Hnd).
  - intros n Hn. rewrite !elem_of_cons, elem_of_nil in Hn.
    destruct Hn as [-> | [-> | []]]; (split; [done |]);
      simpl; repeat split; discriminate.
  - right. by eexists.
Defined.

End ChartNameLaws.

(** ** More on the dyff adapter *)
Section CleaningLaws.
Implicit Types (line output tmpDir s : string) (lines : list string).

Lemma Join_cons2 line line' lines (sep : string) :
  Join (line :: line' :: lines) sep = line +:+ sep +:+ Join (line' :: lines) sep.
Proof. done. Qed.

Lemma Join_push_front c lines (sep : string) :
  lines ≠ [] → Join (push_front c lines) sep = String c (Join lines sep).
Proof.
  destruct lines as [| line lines]; [done |]. intros _.
  destruct lines as [| line' lines]; [done |].
  simpl push_front. by rewrite !Join_cons2, str_app_cons.
Qed.

(** Joining the lines of a text gives the text back. *)
Lemma Join_Split s : Join (Split s LF) nl = s.
Proof.
  induction s as [| c s IH]; [done |]. rewrite Split_cons.
  destruct (Ascii.eqb_spec c LF) as [-> | Hc].
  - pose proof (Split_nonempty s LF) as Hne.
    destruct (Split s LF) as [| line lines]; [done |].
    by rewrite Join_cons2, IH.
  - rewrite Join_push_front by apply Split_nonempty. by rewrite IH.
Qed.

(** Splitting joined lines gives the lines back. *)
Lemma Split_Join lines :
  lines ≠ [] → Forall noLF lines → Split (Join lines nl) LF = lines.
Proof.
  induction lines as [| line lines IH]; [done |]. intros _ Hall.
  apply Forall_cons in Hall as [Hline Hall].
  destruct lines as [| line' lines].
  - by apply Split_line.
  - rewrite Join_cons2. unfold nl at 1. rewrite str_app_cons, str_app_nil_l.
    rewrite Split_line_LF by done. f_equal. by apply IH.
Qed.

Lemma filter_Forall_id {A} (P : A → Prop) `{∀ x, Decision (P x)} (l : list A) :
  Forall P l → filter P l = l.
Proof.
  induction 1 as [| x l Hx Hl IH]; [done |].
  by rewrite filter_cons, decide_True, IH.
Qed.

Lemma blank_empty : blank "".
Proof. by vm_compute. Qed.

Lemma cleanDyffOutput_empty tmpDir : dyffdiff.cleanDyffOutput "" tmpDir = "".
Proof.
  rewrite cleanDyffOutput_closed. change (Split "" LF) with [""].
  rewrite filter_cons, filter_nil.
  destruct (decide (keptLine tmpDir "")); by vm_compute.
Qed.

Lemma dropLeadingBlank_kept lines :
  match lines with [] => True | line :: _ => ¬ blank line end →
  dropLeadingBlank lines = lines.
Proof.
  destruct lines as [| line lines]; [done |]. intros Hline.
  simpl. by rewrite decide_False.
Qed.

(** X14: A text whose lines all stay, and whose first line is not blank, comes
    back unchanged. *)
Theorem cleanDyffOutput_fixed output tmpDir :
  (∀ line, line ∈ Split output LF →
     Contains line tmpDir = false ∧ dyffdiff.isBanner line = false) →
  ¬ blank (firstLine output) →
  dyffdiff.cleanDyffOutput output tmpDir = output.
Proof.
  intros Hkept Hfirst. rewrite cleanDyffOutput_closed.
  rewrite filter_Forall_id by (apply Forall_forall; exact Hkept).
  rewrite dropLeadingBlank_kept; [apply Join_Split |].
  unfold firstLine in Hfirst. by destruct (Split output LF).
Qed.

Lemma cleanDyffOutput_fixed_witness :
  let output := "spec.replicas" +:+ nl +:+ "  - 3" +:+ nl +:+ "  + 5" in
  ¬ blank (firstLine output) ∧
  dyffdiff.cleanDyffOutput output "/tmp/chart-sentry-dyff-1" = output.
Proof.
  intros output.
  assert (¬ blank (firstLine output)) as Hfirst by (by vm_compute).
  split; [exact Hfirst |].
  apply (cleanDyffOutput_fixed output "/tmp/chart-sentry-dyff-1"); [| exact Hfirst].
  assert (Split output LF = ["spec.replicas"; "  - 3"; "  + 5"]) as Hsplit
    by (by vm_compute).
  intros line Hline. rewrite Hsplit, !elem_of_cons, elem_of_nil in Hline.
  destruct Hline as [-> | [-> | [-> | []]]]; by vm_compute.
Defined.

(** X15: Cleaning is idempotent: a cleaned text has nothing left to drop. *)
Theorem cleanDyffOutput_idempotent output tmpDir :
  dyffdiff.cleanDyffOutput (dyffdiff.cleanDyffOutput output tmpDir) tmpDir =
  dyffdiff.cleanDyffOutput output tmpDir.
Proof.
  rewrite (cleanDyffOutput_closed output).
  set (cleaned := dropLeadingBlank (filter (keptLine tmpDir) (Split output LF))).
  assert (∀ line, line ∈ cleaned → line ∈ filter (keptLine tmpDir) (Split output LF))
    as Hsub by apply dropLeadingBlank_sub.
  pose proof (dropLeadingBlank_head (filter (keptLine tmpDir) (Split output LF)))
    as Hhead. fold cleaned in Hhead.
  destruct cleaned as [| line lines] eqn:Hcl; [apply cleanDyffOutput_empty |].
  assert (Forall noLF (line :: lines)) as Hlf.
  { apply Forall_forall. intros l Hl. apply Hsub, list_elem_of_filter in Hl as [_ Hl].
    pose proof (Split_noLF output) as Hall. rewrite Forall_forall in Hall. auto. }
  apply cleanDyffOutput_fixed.
  - rewrite Split_Join by done. intros l Hl.
    by apply Hsub, list_elem_of_filter in Hl as [Hk _].
  - by rewrite firstLine_Join by (by apply Forall_cons in Hlf as [? _]).
Qed.

(** X16: What dyff writes to its standard error never changes the result: with
    an empty standard output the result is empty with or without it. *)
Theorem ComputeDiff_ignores_stderr baseName headName run text :
  dyffdiff.ComputeDiff baseName headName (withStderr text run) =
    dyffdiff.ComputeDiff baseName headName run ∧
  (dyffdiff.stdout run = "" → dyffdiff.ComputeDiff baseName headName run = "").
Proof.
  assert (dyffdiff.stdout run = "" →
          dyffdiff.ComputeDiff baseName headName run = "") as Hempty.
  { intros Hout. unfold dyffdiff.ComputeDiff. rewrite Hout.
    destruct (dyffdiff.lookPath run); [| done].
    destruct (dyffdiff.mkdirTemp run) as [tmpDir |]; [| done].
    destruct (negb (dyffdiff.writeBase run)); [done |].
    destruct (negb (dyffdiff.writeHead run)); [done |].
    rewrite cleanDyffOutput_empty.
    destruct (_ && _); [done |].
    by rewrite (bool_decide_eq_true_2 (TrimSpace "" = "")) by apply blank_empty. }
  split; [| exact Hempty].
  destruct (decide (dyffdiff.stdout run = "")) as [Hout | Hout].
  - rewrite Hempty by done.
    unfold dyffdiff.ComputeDiff, withStderr. simpl. rewrite Hout.
    destruct (dyffdiff.lookPath run); [| done].
    destruct (dyffdiff.mkdirTemp run) as [tmpDir |]; [| done].
    destruct (negb (dyffdiff.writeBase run)); [done |].
    destruct (negb (dyffdiff.writeHead run)); [done |].
    rewrite cleanDyffOutput_empty.
    destruct (_ && _); [done |].
    by rewrite (bool_decide_eq_true_2 (TrimSpace "" = "")) by apply blank_empty.
  - unfold dyffdiff.ComputeDiff, withStderr. simpl.
    by rewrite !(bool_decide_eq_false_2 (dyffdiff.stdout run = "")) by done.
Qed.

End CleaningLaws.

(** ** More on the report formatters *)
Section ReportLaws.
Implicit Types (r : DiffResult) (results : list DiffResult) (sb : string).

Lemma checkRunSection_later i r :
  app.checkRunSection "" (S i) r = nl +:+ checkRunSectionOf r.
Proof.
  change (app.checkRunSection "" (S i) r) with (app.checkRunSection ("" +:+ nl) 0 r).
  by rewrite checkRunSection_app.
Qed.

Lemma checkRunSections_later results : ∀ i,
  app.checkRunSections "" (S i) results =
  strcat ((λ r, nl +:+ checkRunSectionOf r) <$> results).
Proof.
  induction results as [| r results IH]; intros i; [done |].
  change (app.checkRunSections "" (S i) (r :: results))
    with (app.checkRunSections (app.checkRunSection "" (S i) r) (S (S i)) results).
  by rewrite checkRunSections_app, IH, checkRunSection_later.
Qed.

Lemma Join_strcat (pieces : list string) : ∀ piece,
  Join (piece :: pieces) nl = piece +:+ strcat ((λ x, nl +:+ x) <$> pieces).
Proof.
  induction pieces as [| piece' pieces IH]; intros piece.
  - simpl. by rewrite str_app_nil_r.
  - rewrite Join_cons2, IH, fmap_cons, strcat_cons. by rewrite str_app_assoc.
Qed.

(** X17: The output part of the check-run document is one section per result,
    in order, with one empty line between two sections. *)
Theorem checkRunSections_Join results sb :
  app.checkRunSections sb 0 results =
  sb +:+ Join (checkRunSectionOf <$> results) nl.
Proof.
  rewrite checkRunSections_app. f_equal.
  destruct results as [| r results]; [done |].
  change (app.checkRunSections "" 0 (r :: results))
    with (app.checkRunSections (app.checkRunSection "" 0 r) 1 results).
  rewrite checkRunSections_app, checkRunSections_later.
  rewrite fmap_cons, Join_strcat. f_equal.
  by rewrite <- list_fmap_compose.
Qed.



Lemma checkRunSectionOf_eq r :
  checkRunSectionOf r =
  "<details><summary>" +:+ Environment r +:+ " — " +:+ labelOf (Status' r)
    +:+ "</summary>" +:+ nl +:+ nl +:+
  (if decide (UnifiedDiff r = "" ∧ SemanticDiff r = "")
   then "No changes detected." +:+ nl
   else semanticBlock r +:+ unifiedBlock r) +:+
  nl +:+ "</details>" +:+ nl.
Proof.
  unfold checkRunSectionOf, app.checkRunSection, semanticBlock, unifiedBlock.
  rewrite statusLabel_labelOf. cbv zeta.
  change (if (0 <? 0)%nat then ?a else ?b) with b.
  destruct (decide (UnifiedDiff r = "")) as [Hu | Hu];
    destruct (decide (SemanticDiff r = "")) as [Hs | Hs].
  - rewrite !bool_decide_eq_true_2, decide_True by done. simpl andb. cbv iota.
    by rewrite ?str_app_nil_l, ?str_app_assoc.
  - rewrite (bool_decide_eq_true_2 (UnifiedDiff r = "")),
      (bool_decide_eq_false_2 (SemanticDiff r = "")),
      (bool_decide_eq_true_2 (SemanticDiff r ≠ "")),
      (bool_decide_eq_false_2 (UnifiedDiff r ≠ "")), decide_False by tauto.
    simpl andb. cbv iota.
    by rewrite ?str_app_nil_l, ?str_app_nil_r, ?str_app_assoc.
  - rewrite (bool_decide_eq_false_2 (UnifiedDiff r = "")),
      (bool_decide_eq_false_2 (SemanticDiff r ≠ "")),
      (bool_decide_eq_true_2 (UnifiedDiff r ≠ "")), decide_False by tauto.
    simpl andb. cbv iota.
    by rewrite ?str_app_nil_l, ?str_app_assoc.
  - rewrite (bool_decide_eq_false_2 (UnifiedDiff r = "")),
      (bool_decide_eq_true_2 (SemanticDiff r ≠ "")),
      (bool_decide_eq_true_2 (UnifiedDiff r ≠ "")), decide_False by tauto.
    simpl andb. cbv iota.
    by rewrite ?str_app_nil_l, ?str_app_assoc.
Qed.

(** X19: In the section of a result built from two diff outputs the label and
    the body agree: "Changed" comes with the diffs, the semantic one first,
    and "No Changes" with "No changes detected."  The body follows the diffs
    and the label the status, so a result that has a diff without status
    Changes shows the diff under "No Changes". *)
Theorem checkRunSection_of_envResult chart envName baseRef headRef sem uni :
  let r := app.envResult chart envName baseRef headRef sem uni in
  checkRunSectionOf r =
    "<details><summary>" +:+ envName +:+ " — " +:+ labelOf (Status' r)
      +:+ "</summary>" +:+ nl +:+ nl +:+
    (if decide (Status' r = StatusChanges)
     then semanticBlock r +:+ unifiedBlock r
     else "No changes detected." +:+ nl) +:+
    nl +:+ "</details>" +:+ nl ∧
  (∀ r', Status' r' = StatusSuccess → UnifiedDiff r' ≠ "" →
     checkRunSectionOf r' =
       "<details><summary>" +:+ Environment r' +:+ " — No Changes</summary>"
         +:+ nl +:+ nl +:+ semanticBlock r' +:+ unifiedBlock r' +:+
       nl +:+ "</details>" +:+ nl).
Proof.
  intros r. split.
  - rewrite checkRunSectionOf_eq. subst r.
    destruct (decide (sem = "")) as [-> | Hs];
      [destruct (decide (uni = "")) as [-> | Hu] |].
    + by rewrite envResult_empty.
    + rewrite envResult_nonempty by auto. simpl.
      by rewrite decide_False by tauto.
    + rewrite envResult_nonempty by auto. simpl.
      by rewrite decide_False by tauto.
  - intros r' Hst Hu. rewrite checkRunSectionOf_eq, Hst.
    rewrite decide_False by tauto. by rewrite str_app_assoc.
Qed.

(** X20: Every group that [GroupByChart] makes gives a check-run document: it
    is not empty and is headed by the chart name that all results of the
    group share. *)
Theorem GroupByChart_check_runs results groups g :
  GroupByChart results = Some groups → g ∈ groups →
  ∃ r0, head g = Some r0 ∧
        (∀ r, r ∈ g → ChartName r = ChartName r0) ∧
        app.formatCheckRunMarkdown g =
          checkRunHeader (ChartName r0) (conclusionOf g) +:+
          checkRunBody (ChartName r0) g ∧
        app.formatCheckRunMarkdown g ≠ "".
Proof.
  rewrite GroupByChart_groupsOf. intros [= <-] (n & -> & Hn)%list_elem_of_fmap.
  apply firstSeen_elem, ofChart_present in Hn.
  pose proof (ofChart_names n results) as Hnames.
  destruct (ofChart n results) as [| r0 rest]; [done |].
  exists r0. split; [done |]. split.
  - intros r Hr. rewrite (Hnames r Hr). symmetry. apply Hnames. left.
  - rewrite formatCheckRunMarkdown_cons. split; [done |]. discriminate.
Qed.

Lemma GroupByChart_check_runs_witness :
  let r chart := mkDiffResult chart "prod" "main" "feat" StatusSuccess false "" ""
                   "No changes detected." in
  GroupByChart [r "a"; r "b"] = Some [[r "a"]; [r "b"]] ∧
  [r "b"] ∈ [[r "a"]; [r "b"]] ∧
  app.formatCheckRunMarkdown [r "b"] ≠ "".
Proof.
  intros r.
  assert (GroupByChart [r "a"; r "b"] = Some [[r "a"]; [r "b"]]) as Hg
    by (by vm_compute).
  assert ([r "b"] ∈ [[r "a"]; [r "b"]]) as Hin by (right; left).
  split; [exact Hg |]. split; [exact Hin |].
  destruct (GroupByChart_check_runs _ _ _ Hg Hin) as (r0 & _ & _ & _ & Hne).
  exact Hne.
Defined.

End ReportLaws.

(** ** FetchChartFiles: which failures are NotFound, and the temp directory *)
Section FetchLaws.
Variable filepath_Join : string → string → string.
Implicit Types (run : sourcectrl.FetchRun) (e : error).

Lemma IsNotFound_wrap_answered prefix e :
  ¬ wrapsNotFoundError e → IsNotFound (Some (fmt_Errorf_w prefix e)) = false.
Proof.
  intros He. destruct (IsNotFound (Some (fmt_Errorf_w prefix e))) eqn:H; [| done].
  apply IsNotFound_Some in H. inversion H; subst. done.
Qed.

(** X21: When no error answered by the client, the network or the file system
    wraps a [NotFoundError], the error of [FetchChartFiles] is NotFound
    exactly when everything up to the extraction succeeded and [os.Stat]
    on the chart directory failed; it then is the [NotFoundError] of the
    chart path and the ref. *)
Theorem FetchChartFiles_NotFound ref chartPath run :
  (∀ e, e ∈ answeredErrors run → ¬ wrapsNotFoundError e) →
  let res := sourcectrl.FetchChartFiles filepath_Join ref chartPath run in
  (IsNotFound (sourcectrl.err res) = true
     ↔ (∃ tmpDir entry0, reachesStat run tmpDir entry0) ∧
       sourcectrl.statChartDir run ≠ None) ∧
  (IsNotFound (sourcectrl.err res) = true →
     sourcectrl.err res = Some (NewNotFoundError chartPath ref)).
Proof.
  intros Hext res. subst res.
  unfold sourcectrl.FetchChartFiles, reachesStat, answeredErrors in *.
  destruct (sourcectrl.getArchiveLink run) as [e1 | url].
  { cbn [sourcectrl.err]. rewrite IsNotFound_wrap_answered by (apply Hext; set_solver).
    split; [| done]. split; [done |]. by intros [(? & ? & [? [=]] & _) _]. }
  destruct (sourcectrl.newRequest run) as [e2 |].
  { cbn [sourcectrl.err]. rewrite IsNotFound_wrap_answered by (apply Hext; set_solver).
    split; [| done]. split; [done |]. by intros [(? & ? & _ & [=] & _) _]. }
  destruct (sourcectrl.httpDo run) as [e3 | status].
  { cbn [sourcectrl.err]. rewrite IsNotFound_wrap_answered by (apply Hext; set_solver).
    split; [| done]. split; [done |]. by intros [(? & ? & _ & _ & [=] & _) _]. }
  destruct (Nat.eqb_spec status sourcectrl.StatusOK) as [-> | Hstatus]; simpl negb;
    cbv iota.
  2: { simpl. split; [| done]. split; [done |].
       intros [(? & ? & _ & _ & [= ?] & _) _]. done. }
  destruct (sourcectrl.mkdirTemp run) as [e4 | tmpDir].
  { cbn [sourcectrl.err]. rewrite IsNotFound_wrap_answered by (apply Hext; set_solver).
    split; [| done]. split; [done |]. by intros [(? & ? & _ & _ & _ & [=] & _) _]. }
  destruct (sourcectrl.extractTarGz run) as [e5 |].
  { cbn [sourcectrl.err]. rewrite IsNotFound_wrap_answered by (apply Hext; set_solver).
    split; [| done]. split; [done |]. by intros [(? & ? & _ & _ & _ & _ & [=] & _) _]. }
  destruct (sourcectrl.readDir run) as [e6 | entries].
  { cbn [sourcectrl.err]. rewrite IsNotFound_wrap_answered by (apply Hext; set_solver).
    split; [| done]. split; [done |].
    by intros [(? & ? & _ & _ & _ & _ & _ & [? [=]]) _]. }
  destruct entries as [| entry0 entries].
  { simpl. split; [| done]. split; [done |].
    by intros [(? & ? & _ & _ & _ & _ & _ & [? [=]]) _]. }
  destruct (sourcectrl.statChartDir run) as [e7 |]; simpl.
  - split; [| done]. split; [| done]. intros _.
    split; [| done]. exists tmpDir, entry0. eauto 10.
  - split; [| done]. split; [done |]. by intros [_ ?].
Qed.

(** X22: The temp directory never outlives a failure: when the fetch fails after
    the directory was created, it has removed it and returns no cleanup;
    when it succeeds, it has removed nothing and returns the cleanup of that
    directory with the chart directory inside its first entry. *)
Theorem FetchChartFiles_cleanup ref chartPath run :
  let res := sourcectrl.FetchChartFiles filepath_Join ref chartPath run in
  (sourcectrl.err res = None →
     sourcectrl.removed res = [] ∧
     ∃ tmpDir entry0, reachesStat run tmpDir entry0 ∧
       sourcectrl.cleanup res = Some tmpDir ∧
       sourcectrl.chartDir res =
         filepath_Join (filepath_Join tmpDir entry0) chartPath) ∧
  (sourcectrl.err res ≠ None →
     sourcectrl.chartDir res = "" ∧ sourcectrl.cleanup res = None ∧
     (∀ tmpDir, createsTemp run tmpDir → sourcectrl.removed res = [tmpDir]) ∧
     ((∀ tmpDir, ¬ createsTemp run tmpDir) → sourcectrl.removed res = [])).
Proof.
  intros res. subst res.
  unfold sourcectrl.FetchChartFiles, reachesStat, createsTemp.
  destruct (sourcectrl.getArchiveLink run) as [e1 | url].
  { simpl. split; [done |]. intros _. repeat split; try done.
    by intros ? ([? [=]] & _). }
  destruct (sourcectrl.newRequest run) as [e2 |].
  { simpl. split; [done |]. intros _. repeat split; try done.
    by intros ? (_ & [=] & _). }
  destruct (sourcectrl.httpDo run) as [e3 | status].
  { simpl. split; [done |]. intros _. repeat split; try done.
    by intros ? (_ & _ & [=] & _). }
  destruct (Nat.eqb_spec status sourcectrl.StatusOK) as [-> | Hstatus]; simpl negb;
    cbv iota.
  2: { simpl. split; [done |]. intros _. repeat split; try done.
       intros ? (_ & _ & [= ?] & _). done. }
  destruct (sourcectrl.mkdirTemp run) as [e4 | tmpDir].
  { simpl. split; [done |]. intros _. repeat split; try done.
    by intros ? (_ & _ & _ & [=]). }
  assert (∀ t, (∃ url', @inr error string url = inr url') ∧ @None error = None ∧
               @inr error nat sourcectrl.StatusOK = inr sourcectrl.StatusOK ∧
               @inr error string tmpDir = inr t → [tmpDir] = [t]) as Hsame.
  { by intros t (_ & _ & _ & [= ->]). }
  assert ((∀ t, ¬ ((∃ url', @inr error string url = inr url') ∧ @None error = None ∧
               @inr error nat sourcectrl.StatusOK = inr sourcectrl.StatusOK ∧
               @inr error string tmpDir = inr t)) → [tmpDir] = []) as Hnone.
  { intros Hno. exfalso. apply (Hno tmpDir). eauto. }
  destruct (sourcectrl.extractTarGz run) as [e5 |].
  { simpl. split; [done |]. intros _. repeat split; done. }
  destruct (sourcectrl.readDir run) as [e6 | entries].
  { simpl. split; [done |]. intros _. repeat split; done. }
  destruct entries as [| entry0 entries].
  { simpl. split; [done |]. intros _. repeat split; done. }
  destruct (sourcectrl.statChartDir run) as [e7 |]; simpl.
  - split; [done |]. intros _. repeat split; done.
  - split; [| done]. intros _. split; [done |].
    exists tmpDir, entry0. eauto 10.
Qed.


End FetchLaws.

(** The theorem on NotFound at concrete answers: the archive has no chart
    directory. *)
Lemma FetchChartFiles_NotFound_witness :
  let run := sourcectrl.mkFetchRun (inr "https://codeload.github.com/o/r/tar.gz/main")
               None (inr 200) (inr "/tmp/chart-val-1") None
               (inr ["o-r-abc123"]) (Some (errors_New "stat: no such file")) in
  (∀ e, e ∈ answeredErrors run → ¬ wrapsNotFoundError e) ∧
  IsNotFound (sourcectrl.err
                (sourcectrl.FetchChartFiles joinWithSlash "main" "charts/my-app"
                   run))
    = true.
Proof.
  intros run.
  assert (∀ e, e ∈ answeredErrors run → ¬ wrapsNotFoundError e) as Hext.
  { intros e He. vm_compute in He. by apply elem_of_nil in He. }
  split; [exact Hext |].
  apply (proj1 (FetchChartFiles_NotFound joinWithSlash "main" "charts/my-app"
                  run Hext)).
  split; [| discriminate].
  exists "/tmp/chart-val-1", "o-r-abc123". unfold reachesStat. simpl. eauto 10.
Defined.


(** ** GetChangedFiles: the pages of a pull request's files *)
Section PageLaws.
Variable ListFiles : nat → error + prfiles.ListFilesPage.
Implicit Types (pages : list prfiles.ListFilesPage) (e : error).

Lemma GetChangedFiles_loop_pages page pages :
  servesPages ListFiles page pages →
  ∀ fuel changedFiles, length pages ≤ fuel →
    prfiles.GetChangedFiles_loop ListFiles fuel page changedFiles =
    Some (changedFiles ++ concat (prfiles.filenames <$> pages), None).
Proof.
  induction 1 as [page resp Hresp Hlast | page resp pages Hresp Hnext Hrest IH];
    intros fuel changedFiles Hfuel.
  - destruct fuel as [| fuel]; [simpl in Hfuel; lia |].
    simpl. rewrite Hresp, Hlast. simpl. by rewrite app_nil_r.
  - destruct fuel as [| fuel]; [simpl in Hfuel; lia |].
    simpl. rewrite Hresp.
    destruct (Nat.eqb_spec (prfiles.NextPage resp) 0) as [Heq | _]; [done |].
    rewrite IH by (simpl in Hfuel; lia). by rewrite app_assoc.
Qed.

(** X24: When the API serves the pages up to one without a next page, the files
    are those of all the pages, in the order of the pages, and there is no
    error: one request per page is enough. *)
Theorem GetChangedFiles_all_pages pages fuel :
  servesPages ListFiles 0 pages → length pages ≤ fuel →
  prfiles.GetChangedFiles ListFiles fuel =
  Some (concat (prfiles.filenames <$> pages), None).
Proof.
  intros Hpages Hfuel. unfold prfiles.GetChangedFiles.
  by rewrite (GetChangedFiles_loop_pages 0 pages Hpages).
Qed.

Lemma GetChangedFiles_loop_error page pages e :
  servesUntilError ListFiles page pages e →
  ∀ fuel changedFiles, length pages < fuel →
    prfiles.GetChangedFiles_loop ListFiles fuel page changedFiles =
    Some ([], Some (fmt_Errorf_w "listing PR files: " e)).
Proof.
  induction 1 as [page e He | page resp pages e Hresp Hnext Hrest IH];
    intros fuel changedFiles Hfuel.
  - destruct fuel as [| fuel]; [lia |]. simpl. by rewrite He.
  - destruct fuel as [| fuel]; [lia |]. simpl. rewrite Hresp.
    destruct (Nat.eqb_spec (prfiles.NextPage resp) 0) as [Heq | _]; [done |].
    apply IH. simpl in Hfuel. lia.
Qed.

Lemma GetChangedFiles_loop_no_partial fuel : ∀ page changedFiles files e,
  prfiles.GetChangedFiles_loop ListFiles fuel page changedFiles
    = Some (files, Some e) →
  files = [] ∧ ∃ inner, e = fmt_Errorf_w "listing PR files: " inner.
Proof.
  induction fuel as [| fuel IH]; intros page changedFiles files e; [done |].
  simpl. destruct (ListFiles page) as [inner | resp].
  - intros [= <- <-]. eauto.
  - destruct (Nat.eqb (prfiles.NextPage resp) 0); [done | apply IH].
Qed.

(** X25: A request that fails makes the whole call fail: the files of the pages
    read so far are dropped, the list is nil and the error wraps the one of
    the request.  No call returns files together with an error. *)
Theorem GetChangedFiles_error pages e fuel :
  servesUntilError ListFiles 0 pages e → length pages < fuel →
  prfiles.GetChangedFiles ListFiles fuel =
    Some ([], Some (fmt_Errorf_w "listing PR files: " e)) ∧
  (∀ fuel' files e',
     prfiles.GetChangedFiles ListFiles fuel' = Some (files, Some e') → files = []).
Proof.
  intros Hpages Hfuel. split.
  - by apply (GetChangedFiles_loop_error 0 pages e Hpages).
  - intros fuel' files e' H.
    by apply GetChangedFiles_loop_no_partial in H as [-> _].
Qed.

(** X26: The loop has no limit of its own: against an API that always names a
    next page it never returns, however many requests it makes. *)
Theorem GetChangedFiles_endless fuel :
  (∀ page, ∃ resp, ListFiles page = inr resp ∧ prfiles.NextPage resp ≠ 0) →
  prfiles.GetChangedFiles ListFiles fuel = None.
Proof.
  intros Hnext. unfold prfiles.GetChangedFiles.
  generalize 0 at 1. generalize (@nil string).
  induction fuel as [| fuel IH]; intros changedFiles page; [done |].
  simpl. destruct (Hnext page) as (resp & -> & Hne).
  destruct (Nat.eqb_spec (prfiles.NextPage resp) 0) as [Heq | _]; [done |].
  apply IH.
Qed.

End PageLaws.

(** The three theorems on pages at concrete answers of the API. *)
Lemma GetChangedFiles_all_pages_witness :
  let ListFiles page :=
    match page with
    | 0 => inr (prfiles.mkListFilesPage ["charts/a/values.yaml"] 2)
    | _ => inr (prfiles.mkListFilesPage ["charts/b/values.yaml"] 0)
    end in
  servesPages ListFiles 0
    [prfiles.mkListFilesPage ["charts/a/values.yaml"] 2;
     prfiles.mkListFilesPage ["charts/b/values.yaml"] 0] ∧
  prfiles.GetChangedFiles ListFiles 2 =
  Some (["charts/a/values.yaml"; "charts/b/values.yaml"], None).
Proof.
  intros ListFiles.
  assert (servesPages ListFiles 0
            [prfiles.mkListFilesPage ["charts/a/values.yaml"] 2;
             prfiles.mkListFilesPage ["charts/b/values.yaml"] 0]) as Hpages.
  { apply serves_next; [done | done |]. by apply serves_last. }
  split; [exact Hpages |].
  exact (GetChangedFiles_all_pages ListFiles _ 2 Hpages (le_n 2)).
Defined.

Lemma GetChangedFiles_error_witness :
  let ListFiles page :=
    match page with
    | 0 => inr (prfiles.mkListFilesPage ["charts/a/values.yaml"] 2)
    | _ => inl (errors_New "rate limited")
    end in
  servesUntilError ListFiles 0
    [prfiles.mkListFilesPage ["charts/a/values.yaml"] 2]
    (errors_New "rate limited") ∧
  prfiles.GetChangedFiles ListFiles 2 =
  Some ([], Some (fmt_Errorf_w "listing PR files: " (errors_New "rate limited"))).
Proof.
  intros ListFiles.
  assert (servesUntilError ListFiles 0
            [prfiles.mkListFilesPage ["charts/a/values.yaml"] 2]
            (errors_New "rate limited")) as Hpages.
  { apply fails_later; [done | done |]. by apply fails_here. }
  split; [exact Hpages |].
  exact (proj1 (GetChangedFiles_error ListFiles _ _ 2 Hpages (le_n 2))).
Defined.

Lemma GetChangedFiles_endless_witness :
  let ListFiles page :=
    @inr error _ (prfiles.mkListFilesPage ["charts/a/values.yaml"] (S page)) in
  (∀ page, ∃ resp, ListFiles page = inr resp ∧ prfiles.NextPage resp ≠ 0) ∧
  prfiles.GetChangedFiles ListFiles 1000 = None.
Proof.
  intros ListFiles.
  assert (∀ page, ∃ resp, ListFiles page = inr resp ∧ prfiles.NextPage resp ≠ 0)
    as Hnext by (intros page; eexists; split; [done | done]).
  split; [exact Hnext |].
  exact (GetChangedFiles_endless ListFiles 1000 Hnext).
Defined.
